(** * asociacionmvp: the incremental-probe reconciliation run of [data/update.py]

    A shallow embedding of [src/data/update.py] and the properties its
    specification states about it.

    Conventions of the embedding.
    - Python [int] is [Z]; Python [str] is [string] (a sequence of bytes,
      UTF-8 for text; HTTP header values are Latin-1, one byte per
      character).
    - Values read from the JSON files that the program converts defensively
      ([int(...)], hashing inside [try]) are arbitrary JSON values, type
      [json]. Fields that the program only copies or compares are typed by
      the schema of the files (strings).
    - A Python [dict] with string keys is a [gmap string _]; a field that may
      be missing from a loaded object is an [option].
    - Exceptions are explicit: [result A] is [Ok a] or [Raise e], and the
      body of [main] runs in a state monad over the process memory in which
      a raise keeps the memory reached so far.
    - The network, the clock and the file system are inputs: an [env] gives
      the reply of [urllib.request.urlopen] to every request and the current
      moment; a [files] value gives the content of the three JSON files. *)

From Stdlib Require Import ZArith Lia Ascii String Floats.SpecFloat Sorting.Sorted.
From stdpp Require Import gmap strings list fin_maps pretty.

Open Scope Z_scope.

(** ** Python values and exceptions *)

Inductive exn : Type :=
| AttributeError
| TypeError
| ValueError
| OverflowError
| KeyError.

Inductive result (A : Type) : Type :=
| Ok (a : A)
| Raise (e : exn).
Arguments Ok {A} a.
Arguments Raise {A} e.

(** What [json.load] can return. A JSON number with a fraction or an
    exponent is a binary64 float, kept as its sign, mantissa and exponent. *)
#[local] Unset Elimination Schemes.
Inductive json : Type :=
| JNull
| JBool (b : bool)
| JInt (z : Z)
| JFloat (f : spec_float)
| JStr (s : string)
| JArr (l : list json)
| JObj (kv : list (string * json)).
#[local] Set Elimination Schemes.

(** *** [int(x)] *)

(** [int] of a float truncates toward zero; NaN and the infinities raise. *)
Definition int_of_float (f : spec_float) : result Z :=
  match f with
  | S754_zero _ => Ok 0
  | S754_infinity _ => Raise OverflowError
  | S754_nan => Raise ValueError
  | S754_finite s m e =>
      let a := if 0 <=? e then Z.pos m * 2 ^ e else Z.pos m / 2 ^ (- e) in
      Ok (if s then - a else a)
  end.

Definition is_digit (c : ascii) : bool :=
  let n := nat_of_ascii c in ((48 <=? n) && (n <=? 57))%nat.

Definition digit_val (c : ascii) : Z := Z.of_nat (nat_of_ascii c) - 48.

(** The ASCII characters Python strips as white space: TAB..CR, FS..US and
    the space. *)
Definition is_py_space (c : ascii) : bool :=
  let n := nat_of_ascii c in
  (((9 <=? n) && (n <=? 13)) || ((28 <=? n) && (n <=? 32)))%nat.

Fixpoint lstrip (s : string) : string :=
  match s with
  | String c s' => if is_py_space c then lstrip s' else s
  | EmptyString => EmptyString
  end.

Definition strip (s : string) : string :=
  String.rev (lstrip (String.rev (lstrip s))).

(** Decimal digits, where one underscore may stand between two digits.
    [us] tells that the previous character was an underscore. *)
Fixpoint digits_go (acc : Z) (us : bool) (s : string) : option Z :=
  match s with
  | EmptyString => if us then None else Some acc
  | String c s' =>
      if is_digit c then digits_go (10 * acc + digit_val c) false s'
      else if Ascii.eqb c "_" then (if us then None else digits_go acc true s')
      else None
  end.

Definition digits (s : string) : option Z :=
  match s with
  | String c s' => if is_digit c then digits_go (digit_val c) false s' else None
  | EmptyString => None
  end.

(** [int(s)] for a string, base 10: surrounding white space, an optional
    sign, then the digits. (Digits and spaces outside ASCII are not
    recognised here, and the interpreter's limit on the number of digits is
    not modelled.) *)
Definition int_of_str (s : string) : result Z :=
  let r :=
    match strip s with
    | String "-" s' => Z.opp <$> digits s'
    | String "+" s' => digits s'
    | s' => digits s'
    end in
  match r with
  | Some z => Ok z
  | None => Raise ValueError
  end.

Definition py_int (x : json) : result Z :=
  match x with
  | JNull => Raise TypeError
  | JBool b => Ok (if b then 1 else 0)
  | JInt z => Ok z
  | JFloat f => int_of_float f
  | JStr s => int_of_str s
  | JArr _ => Raise TypeError
  | JObj _ => Raise TypeError
  end.

(** [hash(x)] succeeds for everything but lists and dicts. *)
Definition hashable (x : json) : bool :=
  match x with
  | JArr _ | JObj _ => false
  | _ => true
  end.

(** [x == k] for a string [k]: only an equal string is equal to it. *)
Definition eq_str (x : json) (k : string) : bool :=
  match x with
  | JStr s => bool_decide (s = k)
  | _ => false
  end.

(** *** String helpers *)

(** [str.lower()] on one Latin-1 character. *)
Definition lower_char (c : ascii) : ascii :=
  let n := nat_of_ascii c in
  if (((65 <=? n) && (n <=? 90))
      || ((192 <=? n) && (n <=? 222) && negb (n =? 215)))%nat
  then ascii_of_nat (n + 32) else c.

Fixpoint lower (s : string) : string :=
  match s with
  | String c s' => String (lower_char c) (lower s')
  | EmptyString => EmptyString
  end.

(** [needle in hay] *)
Fixpoint contains (needle hay : string) : bool :=
  String.prefix needle hay ||
  match hay with
  | String _ hay' => contains needle hay'
  | EmptyString => false
  end.

(** [s.replace(old, new)] for a non-empty [old]: left to right, without
    overlap. [skip] counts the characters of a match still to be dropped. *)
Fixpoint replace_go (old new : string) (skip : nat) (s : string) : string :=
  match s with
  | EmptyString => EmptyString
  | String c s' =>
      match skip with
      | S k => replace_go old new k s'
      | O =>
          if String.prefix old s
          then new +:+ replace_go old new (String.length old - 1) s'
          else String c (replace_go old new 0 s')
      end
  end.

Definition replace (old new s : string) : string := replace_go old new 0 s.

(** [template.format(n=n)] for a template whose only replacement field is
    [{n}]: the field becomes [str(n)]. *)
Fixpoint format_n (template : string) (n : Z) : string :=
  match template with
  | String "{" (String "n" (String "}" rest)) => pretty n +:+ format_n rest n
  | String c rest => String c (format_n rest n)
  | EmptyString => EmptyString
  end.

(** ** Configuration tables *)

Definition BASE_URLS : gmap string string := list_to_map [
  ("mayor",    "https://lotenal.gob.mx/documentos/listapremios/mayor/mayor{n}.pdf");
  ("superior", "https://lotenal.gob.mx/documentos/listapremios/superior/superior{n}.pdf");
  ("zodiaco",  "https://lotenal.gob.mx/documentos/listapremios/zodiaco/zodiaco{n}.pdf")
]%string.

Definition LABELS : gmap string string := list_to_map [
  ("mayor", "Sorteo Mayor");
  ("superior", "Sorteo Superior");
  ("zodiaco", "Sorteo Zodiaco")
]%string.

(** [weekday()]: Monday is 0, Sunday is 6. *)
Definition SCHEDULE_WEEKDAYS : gmap string (list Z) := list_to_map [
  ("zodiaco", [6]);
  ("mayor", [1]);
  ("superior", [4])
]%string.

(** The tuple the loops of [main] enumerate. *)
Definition SERIES : list string := ["mayor"; "superior"; "zodiaco"]%string.

(** ** The schedule gate *)

(** [now_local] as far as the program looks at it. *)
Record local_time : Type := {
  weekday : Z;          (* now_local.weekday() *)
  date_iso : string     (* now_local.date().isoformat() *)
}.

Definition should_attempt_today (draw_key : string) (now_local : local_time) : bool :=
  let w := weekday now_local in
  bool_decide (w ∈ default [] (SCHEDULE_WEEKDAYS !! draw_key)).

(** ** The existence probe *)

Inductive http_method : Type := HEAD | GET.

Record request : Type := {
  req_method : http_method;
  req_url : string;
  req_headers : list (string * string);
  req_timeout : Z
}.

(** What [urlopen] raises: [HTTPError] for a status that is not a success,
    anything else ([URLError], a timeout, a TLS or socket error, ...) under
    [OtherError]. All of them are subclasses of [Exception]. *)
Inductive urlopen_error : Type :=
| HTTPError (code : Z)
| OtherError.

(** The outcome of [urlopen(req, timeout=...)]: a response, of which the
    program reads [status] and the [Content-Type] header, or an exception. *)
Inductive reply : Type :=
| Response (status : Z) (content_type : option string)
| Failed (e : urlopen_error).

Definition transport : Type := request → reply.

(** [ct = (resp.headers.get("Content-Type") or "").lower()] followed by
    [("pdf" in ct) or (ct == "")]. *)
Definition content_type_ok (header : option string) : bool :=
  let ct := lower (match header with
                   | Some h => if bool_decide (h = "") then "" else h
                   | None => ""
                   end)%string in
  contains "pdf" ct || bool_decide (ct = ""%string).

Definition head_request (url : string) (timeout_sec : Z) : request :=
  {| req_method := HEAD; req_url := url; req_headers := [];
     req_timeout := timeout_sec |}.

Definition range_request (url : string) (timeout_sec : Z) : request :=
  {| req_method := GET; req_url := url;
     req_headers := [("Range", "bytes=0-80")]%string;
     req_timeout := timeout_sec |}.

(** [pdf_exists(url, timeout_sec)]: the answer, and the requests issued in
    order. *)
Definition pdf_exists (urlopen : transport) (url : string) (timeout_sec : Z)
  : bool * list request :=
  (* 1) HEAD *)
  let req := head_request url timeout_sec in
  match urlopen req with
  | Response status ct =>
      if negb (status =? 200) then (false, [req])
      else (content_type_ok ct, [req])
  | Failed _ =>
      (* 2) GET with a Range header *)
      let req2 := range_request url timeout_sec in
      match urlopen req2 with
      | Response status ct =>
          if negb ((status =? 200) || (status =? 206)) then (false, [req; req2])
          else (content_type_ok ct, [req; req2])
      | Failed (HTTPError _) => (false, [req; req2])
      | Failed _ => (false, [req; req2])
      end
  end.

Definition DEFAULT_TIMEOUT : Z := 12.

(** ** The clock *)

(** [now_utc = datetime.now(timezone.utc)], by its fields. *)
Record utc_time : Type := {
  year : nat; month : nat; day : nat;
  hour : nat; minute : nat; second : nat; microsecond : nat
}.

Definition digit_char (d : nat) : ascii :=
  match d with
  | 0 => "0" | 1 => "1" | 2 => "2" | 3 => "3" | 4 => "4"
  | 5 => "5" | 6 => "6" | 7 => "7" | 8 => "8" | _ => "9"
  end%nat%char.

(** The last [w] decimal digits of [n], zero padded: [f"{n:0{w}d}"] for the
    ranges [datetime] allows. *)
Fixpoint zero_pad (w n : nat) : string :=
  match w with
  | O => EmptyString
  | S w' => zero_pad w' (n / 10) +:+ String (digit_char (n mod 10)) EmptyString
  end.

(** The date and time part of [isoformat()]; the fraction is left out when
    [microsecond] is 0. *)
Definition isoformat_naive (t : utc_time) : string :=
  zero_pad 4 (year t) +:+ "-" +:+ zero_pad 2 (month t) +:+ "-" +:+ zero_pad 2 (day t)
  +:+ "T" +:+ zero_pad 2 (hour t) +:+ ":" +:+ zero_pad 2 (minute t)
  +:+ ":" +:+ zero_pad 2 (second t)
  +:+ (if (microsecond t =? 0)%nat then "" else "." +:+ zero_pad 6 (microsecond t)).

(** [isoformat()] of a moment whose time zone is UTC. *)
Definition isoformat (t : utc_time) : string := isoformat_naive t +:+ "+00:00".

Record env : Type := {
  now_utc : utc_time;
  now_local : local_time;     (* now_utc.astimezone(TZ) *)
  urlopen : transport
}.

(** ** The three persisted views *)

(** An entry of [latest.json]'s [results]. *)
Record snapshot : Type := {
  s_label : string;
  s_draw : string;
  s_published_date : string;
  s_pdf_url : string
}.

Record latest_t : Type := {
  l_updated_at : option string;
  l_results : option (gmap string snapshot)
}.

(** An item of [history.json]. [type] and [draw] are whatever the file
    holds; a key that is missing is [None]. *)
Record hist_item : Type := {
  h_type : option json;
  h_label : option string;
  h_draw : option json;
  h_published_date : option string;
  h_pdf_url : option string
}.

Record history_t : Type := {
  hi_updated_at : option string;
  hi_items : option (list hist_item)
}.

(** The content of [state.json], [latest.json] and [history.json]; [None]
    when the file does not exist. *)
Record files : Type := {
  STATE_FILE : option (gmap string json);
  LATEST_FILE : option latest_t;
  HISTORY_FILE : option history_t
}.

Definition load_json {A : Type} (path : option A) (default : A) : A :=
  match path with
  | Some data => data
  | None => default
  end.

(** ** The memory of a run *)

(** The local variables of [main], the files, and three logs that the
    program does not keep but its specification talks about: the calls of
    [pdf_exists] with their answers, the HTTP requests sent, and the number
    of calls of [save_json]. *)
Record mem : Type := {
  state : gmap string json;
  latest : latest_t;
  history : history_t;
  existing : list (json * Z);
  updated_any : bool;
  disk : files;
  probes : list (string * bool);
  requests : list request;
  saves : nat
}.

Definition with_state (f : gmap string json → gmap string json) (m : mem) : mem :=
  {| state := f (state m); latest := latest m; history := history m;
     existing := existing m; updated_any := updated_any m; disk := disk m;
     probes := probes m; requests := requests m; saves := saves m |}.

Definition with_latest (f : latest_t → latest_t) (m : mem) : mem :=
  {| state := state m; latest := f (latest m); history := history m;
     existing := existing m; updated_any := updated_any m; disk := disk m;
     probes := probes m; requests := requests m; saves := saves m |}.

Definition with_history (f : history_t → history_t) (m : mem) : mem :=
  {| state := state m; latest := latest m; history := f (history m);
     existing := existing m; updated_any := updated_any m; disk := disk m;
     probes := probes m; requests := requests m; saves := saves m |}.

Definition with_existing (f : list (json * Z) → list (json * Z)) (m : mem) : mem :=
  {| state := state m; latest := latest m; history := history m;
     existing := f (existing m); updated_any := updated_any m; disk := disk m;
     probes := probes m; requests := requests m; saves := saves m |}.

Definition with_updated_any (b : bool) (m : mem) : mem :=
  {| state := state m; latest := latest m; history := history m;
     existing := existing m; updated_any := b; disk := disk m;
     probes := probes m; requests := requests m; saves := saves m |}.

(** A write to one of the files. *)
Definition with_disk (f : files → files) (m : mem) : mem :=
  {| state := state m; latest := latest m; history := history m;
     existing := existing m; updated_any := updated_any m; disk := f (disk m);
     probes := probes m; requests := requests m; saves := S (saves m) |}.

Definition with_log (p : string * bool) (rs : list request) (m : mem) : mem :=
  {| state := state m; latest := latest m; history := history m;
     existing := existing m; updated_any := updated_any m; disk := disk m;
     probes := probes m ++ [p]; requests := requests m ++ rs;
     saves := saves m |}.

(** *** The monads *)

#[global] Instance result_ret : MRet result := @Ok.
#[global] Instance result_bind : MBind result := λ A B k r,
  match r with
  | Ok a => k a
  | Raise e => Raise e
  end.

(** A computation on the memory that returns or raises. *)
Definition M (A : Type) : Type := mem → mem * result A.

#[global] Instance M_ret : MRet M := λ A a m, (m, Ok a).
#[global] Instance M_bind : MBind M := λ A B k c m,
  match c m with
  | (m', Ok a) => k a m'
  | (m', Raise e) => (m', Raise e)
  end.

Definition lift {A : Type} (r : result A) : M A := λ m, (m, r).
Definition gets {A : Type} (f : mem → A) : M A := λ m, (m, Ok (f m)).
Definition modify (f : mem → mem) : M unit := λ m, (f m, Ok tt).

(** [d[k]] *)
Definition getitem {V : Type} (d : gmap string V) (k : string) : result V :=
  match d !! k with
  | Some v => Ok v
  | None => Raise KeyError
  end.

(** [o[k]] for a key of a loaded object that may be missing. *)
Definition field {V : Type} (o : option V) : result V :=
  match o with
  | Some v => Ok v
  | None => Raise KeyError
  end.

(** [for x in xs: body(x)] *)
Fixpoint for_each {A : Type} (xs : list A) (body : A → M unit) : M unit :=
  match xs with
  | [] => mret tt
  | x :: xs' => body x ≫= λ _, for_each xs' body
  end.

(** ** History: the dedupe set and the sort *)

(** One round of the loop that fills [existing]:
    [existing.add((it.get("type"), int(it.get("draw"))))] under
    [try ... except Exception: pass]. The conversion raises for a [draw]
    that is missing or not a number, the [add] for a [type] that cannot be
    hashed; a missing [type] is [None] and raises nothing. *)
Definition dedupe_pair (it : hist_item) : option (json * Z) :=
  let t := default JNull (h_type it) in
  match py_int (default JNull (h_draw it)) with
  | Ok d => if hashable t then Some (t, d) else None
  | Raise _ => None
  end.

Definition build_existing (items : list hist_item) : list (json * Z) :=
  foldl (λ existing it,
           match dedupe_pair it with
           | Some p => p :: existing
           | None => existing
           end) [] items.

(** [(key, n) in existing] *)
Definition in_existing (key : string) (n : Z) (existing : list (json * Z)) : bool :=
  existsb (λ p, eq_str p.1 key && (p.2 =? n)) existing.

(** [sort_key(x)] *)
Definition sort_key (x : hist_item) : result (string * Z) :=
  let published_date := default ""%string (h_published_date x) in
  d ← py_int (default (JInt 0) (h_draw x));
  mret (published_date, d).

(** [a < b] on the tuples [sort_key] returns: the first components decide
    unless they are equal. Strings compare by code point. *)
Definition key_lt (a b : string * Z) : bool :=
  if bool_decide (a.1 = b.1) then a.2 <? b.2 else String.ltb a.1 b.1.

Fixpoint map_result {A B : Type} (f : A → result B) (l : list A) : result (list B) :=
  match l with
  | [] => Ok []
  | x :: l' => y ← f x; ys ← map_result f l'; mret (y :: ys)
  end.

(** [insert_desc x l] puts [x], which stood before all of [l], into the
    descending list [l]: after the greater keys, before the equal ones. *)
Fixpoint insert_desc {A : Type} (x : (string * Z) * A) (l : list ((string * Z) * A))
  : list ((string * Z) * A) :=
  match l with
  | [] => [x]
  | y :: l' => if key_lt x.1 y.1 then y :: insert_desc x l' else x :: y :: l'
  end.

(** [items.sort(key=key, reverse=True)]: the keys are computed first, one
    call per item in order, and a call that raises leaves the list as it
    was; the sort is stable, which determines its result, so that an
    insertion sort stands for it. *)
Definition sort_reverse {A : Type} (key : A → result (string * Z)) (items : list A)
  : result (list A) :=
  keys ← map_result key items;
  mret ((foldr insert_desc [] (zip keys items)).*2).

(** ** [main] *)

Definition default_state : gmap string json :=
  list_to_map [("mayor", JInt 0); ("superior", JInt 0); ("zodiaco", JInt 0)]%string.

Definition default_latest : latest_t :=
  {| l_updated_at := Some ""%string; l_results := Some ∅ |}.

Definition default_history : history_t :=
  {| hi_updated_at := Some ""%string; hi_items := Some [] |}.

Definition placeholder (label : string) : snapshot :=
  {| s_label := label; s_draw := ""; s_published_date := ""; s_pdf_url := "" |}.

(** [d.setdefault(k, v)] on the results *)
Definition setdefault_result (k : string) (v : snapshot)
    (results : gmap string snapshot) : gmap string snapshot :=
  match results !! k with
  | Some _ => results
  | None => <[k := v]> results
  end.

Definition set_results (f : gmap string snapshot → gmap string snapshot)
    (l : latest_t) : latest_t :=
  {| l_updated_at := l_updated_at l; l_results := f <$> l_results l |}.

Definition set_latest_updated_at (stamp : string) (l : latest_t) : latest_t :=
  {| l_updated_at := Some stamp; l_results := l_results l |}.

Definition set_items (f : option (list hist_item) → option (list hist_item))
    (h : history_t) : history_t :=
  {| hi_updated_at := hi_updated_at h; hi_items := f (hi_items h) |}.

Definition set_history_updated_at (stamp : string) (h : history_t) : history_t :=
  {| hi_updated_at := Some stamp; hi_items := hi_items h |}.

(** The lines that bring [latest] to its minimal shape. *)
Definition normalise (l : latest_t) : result latest_t :=
  (* latest.setdefault("results", {}) *)
  let l := {| l_updated_at := l_updated_at l;
              l_results := Some (default ∅ (l_results l)) |} in
  foldl (λ acc k,
           l ← acc;
           label ← getitem LABELS k;
           mret (set_results (setdefault_result k (placeholder label)) l))
        (Ok l) SERIES.

(** [pdf_exists(url)], with the call logged. *)
Definition probe (e : env) (url : string) : M bool := λ m,
  let '(found, sent) := pdf_exists (urlopen e) url DEFAULT_TIMEOUT in
  (with_log (url, found) sent m, Ok found).

Definition save_json_state (data : gmap string json) : M unit :=
  modify (with_disk (λ d, {| STATE_FILE := Some data; LATEST_FILE := LATEST_FILE d;
                             HISTORY_FILE := HISTORY_FILE d |})).

Definition save_json_latest (data : latest_t) : M unit :=
  modify (with_disk (λ d, {| STATE_FILE := STATE_FILE d; LATEST_FILE := Some data;
                             HISTORY_FILE := HISTORY_FILE d |})).

Definition save_json_history (data : history_t) : M unit :=
  modify (with_disk (λ d, {| STATE_FILE := STATE_FILE d; LATEST_FILE := LATEST_FILE d;
                             HISTORY_FILE := Some data |})).

Definition stamp_of (e : env) : string :=
  replace "+00:00" "Z" (isoformat (now_utc e)).

(** The entry of [latest["results"]] and the history item of a confirmed
    document. *)
Definition new_snapshot (label : string) (next_n : Z) (published_date url : string)
  : snapshot :=
  {| s_label := label;
     s_draw := "Sorteo " +:+ pretty next_n;
     s_published_date := published_date;
     s_pdf_url := url |}.

Definition new_item (key label : string) (next_n : Z) (published_date url : string)
  : hist_item :=
  {| h_type := Some (JStr key);
     h_label := Some label;
     h_draw := Some (JInt next_n);
     h_published_date := Some published_date;
     h_pdf_url := Some url |}.

(** [history.setdefault("items", [])] and [history["items"].append(it)] *)
Definition append_item (it : hist_item) (h : history_t) : history_t :=
  set_items (λ items, Some (default [] items ++ [it])) h.

(** The body of [for key in ("mayor", "superior", "zodiaco")]. *)
Definition attempt (e : env) (key : string) : M unit :=
  if negb (should_attempt_today key (now_local e)) then mret tt (* continue *)
  else
    st ← gets state;
    current_n ← lift (py_int (default (JInt 0) (st !! key)));
    let next_n := current_n + 1 in
    template ← lift (getitem BASE_URLS key);
    let url := format_n template next_n in
    found ← probe e url;
    if negb found then mret tt (* continue *)
    else
      (* the PDF exists *)
      modify (with_state <[key := JInt next_n]>);;
      let published_date := date_iso (now_local e) in
      label ← lift (getitem LABELS key);
      results ← gets (λ m, field (l_results (latest m))) ≫= lift;
      modify (with_latest (set_results
        <[key := new_snapshot label next_n published_date url]>));;
      (* append to the history, once *)
      seen ← gets existing;
      (if negb (in_existing key next_n seen) then
         label ← lift (getitem LABELS key);
         modify (with_history
           (append_item (new_item key label next_n published_date url)));;
         modify (with_existing (cons (JStr key, next_n)))
       else mret tt);;
      modify (with_updated_any true).

(** [if updated_any: ...] *)
Definition finish (e : env) : M unit :=
  changed ← gets updated_any;
  if changed : bool then
    let stamp := stamp_of e in
    modify (with_latest (set_latest_updated_at stamp));;
    modify (with_history (set_history_updated_at stamp));;
    items ← gets (λ m, field (hi_items (history m))) ≫= lift;
    sorted ← lift (sort_reverse sort_key items);
    modify (with_history (set_items (λ _, Some sorted)));;
    gets state ≫= save_json_state;;
    gets latest ≫= save_json_latest;;
    gets history ≫= save_json_history
  else mret tt.

(** The memory once the files are loaded, [latest] has its minimal shape
    and the dedupe set is built. *)
Definition startup (fs : files) : result mem :=
  let state := load_json (STATE_FILE fs) default_state in
  let latest := load_json (LATEST_FILE fs) default_latest in
  let history := load_json (HISTORY_FILE fs) default_history in
  latest ← normalise latest;
  let existing := build_existing (default [] (hi_items history)) in
  mret {| state := state; latest := latest; history := history;
          existing := existing; updated_any := false; disk := fs;
          probes := []; requests := []; saves := 0 |}.

(** The loop over the series, then the stamping, sorting and saving. *)
Definition body (e : env) : M unit :=
  for_each SERIES (attempt e);; finish e.

(** One run: the memory at the end, and whether the run returned or raised.
    [None] when nothing was reached (a raise in [startup]). *)
Definition main (e : env) (fs : files) : option mem * result unit :=
  match startup fs with
  | Ok m => let '(m', r) := body e m in (Some m', r)
  | Raise x => (None, Raise x)
  end.

(** The files a run leaves behind. *)
Definition run (e : env) (fs : files) : files :=
  match main e fs with
  | (Some m, _) => disk m
  | (None, _) => fs
  end.

Definition runs (es : list env) (fs : files) : files :=
  foldl (λ fs e, run e fs) fs es.

(** * The vocabulary of the properties *)

(** ** Reading the files *)

(** What a run loads from each file; a missing file gives the default of
    [load_json]. *)
Definition counters (fs : files) : gmap string json :=
  load_json (STATE_FILE fs) default_state.

Definition loaded_latest (fs : files) : latest_t :=
  load_json (LATEST_FILE fs) default_latest.

Definition loaded_history (fs : files) : history_t :=
  load_json (HISTORY_FILE fs) default_history.

(** The items of the history file, as the next run will read them. *)
Definition items_of (fs : files) : list hist_item :=
  default [] (hi_items (loaded_history fs)).

(** The counter of a series as [main] reads it: [int(state.get(key, 0))]. *)
Definition counter_of (st : gmap string json) (key : string) : result Z :=
  py_int (default (JInt 0) (st !! key)).

(** The counter of a series as the next run will read it. *)
Definition counter (fs : files) (s : string) : result Z :=
  counter_of (counters fs) s.

(** The snapshots of the latest file. *)
Definition results_of (fs : files) : gmap string snapshot :=
  default ∅ (l_results (loaded_latest fs)).

(** [Snapshot[s].draw] as the file holds it. *)
Definition snapshot_draw (fs : files) (s : string) : option string :=
  s_draw <$> results_of fs !! s.

(** The location probed for index [n] of series [k]:
    [BASE_URLS[k].format(n=n)]. *)
Definition location (k : string) (n : Z) : string :=
  format_n (default ""%string (BASE_URLS !! k)) n.

(** ** The ways a run ends *)

(** The results once every series has its entry: what [normalise]
    computes. *)
Definition normal_results (r : gmap string snapshot) : gmap string snapshot :=
  setdefault_result "zodiaco" (placeholder "Sorteo Zodiaco")
    (setdefault_result "superior" (placeholder "Sorteo Superior")
       (setdefault_result "mayor" (placeholder "Sorteo Mayor") r)).

Definition normalised (l : latest_t) : latest_t :=
  {| l_updated_at := l_updated_at l;
     l_results := Some (normal_results (default ∅ (l_results l))) |}.

(** The memory [startup] returns. *)
Definition start (fs : files) : mem :=
  {| state := counters fs; latest := normalised (loaded_latest fs);
     history := loaded_history fs; existing := build_existing (items_of fs);
     updated_any := false; disk := fs; probes := []; requests := []; saves := 0 |}.

(** The memory after the lines that follow a confirmed probe. *)
Definition advanced (e : env) (key label : string) (c : Z) (sent : list request)
    (m : mem) : mem :=
  let next_n := c + 1 in
  let url := location key next_n in
  let published_date := date_iso (now_local e) in
  let m1 := with_latest
              (set_results <[key := new_snapshot label next_n published_date url]>)
              (with_state <[key := JInt next_n]> (with_log (url, true) sent m)) in
  with_updated_any true
    (if in_existing key next_n (existing m) then m1
     else with_existing (cons (JStr key, next_n))
            (with_history
               (append_item (new_item key label next_n published_date url)) m1)).

(** The memory after the two [updated_at] assignments. *)
Definition stamped (e : env) (m : mem) : mem :=
  with_history (set_history_updated_at (stamp_of e))
    (with_latest (set_latest_updated_at (stamp_of e)) m).

(** The memory after the sorted list is stored and the three files are
    written. *)
Definition saved (sorted : list hist_item) (m : mem) : mem :=
  let m1 := with_history (set_items (λ _, Some sorted)) m in
  with_disk (λ d, {| STATE_FILE := STATE_FILE d; LATEST_FILE := LATEST_FILE d;
                     HISTORY_FILE := Some (history m1) |})
    (with_disk (λ d, {| STATE_FILE := STATE_FILE d; LATEST_FILE := Some (latest m1);
                        HISTORY_FILE := HISTORY_FILE d |})
       (with_disk (λ d, {| STATE_FILE := Some (state m1); LATEST_FILE := LATEST_FILE d;
                           HISTORY_FILE := HISTORY_FILE d |}) m1)).

(** The list [history["items"]] holds after a confirmed probe of index
    [c + 1] of series [k]. *)
Definition items_advanced (e : env) (fs : files) (k label : string) (c : Z)
  : list hist_item :=
  if in_existing k (c + 1) (build_existing (items_of fs)) then items_of fs
  else items_of fs ++
       [new_item k label (c + 1) (date_iso (now_local e)) (location k (c + 1))].

(** The files after a run that confirmed index [c + 1] of series [k] and
    sorted the history into [sorted]. *)
Definition written_files (e : env) (fs : files) (k label : string) (c : Z)
    (sorted : list hist_item) : files :=
  {| STATE_FILE := Some (<[k := JInt (c + 1)]> (counters fs));
     LATEST_FILE := Some
       {| l_updated_at := Some (stamp_of e);
          l_results := Some
            (<[k := new_snapshot label (c + 1) (date_iso (now_local e))
                      (location k (c + 1))]>
               (normal_results (results_of fs))) |};
     HISTORY_FILE := Some
       {| hi_updated_at := Some (stamp_of e); hi_items := Some sorted |} |}.

(** A run ends in one of five ways. [outcome e fs m r] relates the files
    and the environment to the memory [m] at the end and the result [r]. *)
Inductive outcome (e : env) (fs : files) : mem → result unit → Prop :=
| no_series_due :
    (∀ k, k ∈ SERIES → should_attempt_today k (now_local e) = false) →
    outcome e fs (start fs) (Ok tt)
| counter_unreadable (k : string) (x : exn) :
    k ∈ SERIES → should_attempt_today k (now_local e) = true →
    counter_of (counters fs) k = Raise x →
    outcome e fs (start fs) (Raise x)
| not_found (k : string) (c : Z) (sent : list request) :
    k ∈ SERIES → should_attempt_today k (now_local e) = true →
    counter_of (counters fs) k = Ok c →
    pdf_exists (urlopen e) (location k (c + 1)) DEFAULT_TIMEOUT = (false, sent) →
    outcome e fs (with_log (location k (c + 1), false) sent (start fs)) (Ok tt)
| sort_raised (k label : string) (c : Z) (sent : list request) (x : exn) :
    k ∈ SERIES → should_attempt_today k (now_local e) = true →
    counter_of (counters fs) k = Ok c →
    pdf_exists (urlopen e) (location k (c + 1)) DEFAULT_TIMEOUT = (true, sent) →
    LABELS !! k = Some label →
    sort_reverse sort_key (items_advanced e fs k label c) = Raise x →
    outcome e fs (stamped e (advanced e k label c sent (start fs))) (Raise x)
| written (k label : string) (c : Z) (sent : list request) (sorted : list hist_item) :
    k ∈ SERIES → should_attempt_today k (now_local e) = true →
    counter_of (counters fs) k = Ok c →
    pdf_exists (urlopen e) (location k (c + 1)) DEFAULT_TIMEOUT = (true, sent) →
    LABELS !! k = Some label →
    sort_reverse sort_key (items_advanced e fs k label c) = Ok sorted →
    outcome e fs (saved sorted (stamped e (advanced e k label c sent (start fs))))
      (Ok tt).

(** ** What the specification asks of the views *)

(** The content-type rule in the words of the specification: the type is
    absent (no header, or a header with nothing in it) or names pdf (in any
    letter case). *)
Definition absent (header : option string) : Prop :=
  header = None ∨ header = Some ""%string.

Definition names_pdf (header : option string) : Prop :=
  ∃ h, header = Some h ∧ contains "pdf" (lower h) = true.

(** [a] stands at or above [b] in the descending order of
    (published_date, draw): its date is later, or the dates are equal and
    its draw is not smaller. *)
Definition key_ge (a b : string * Z) : Prop :=
  String.ltb b.1 a.1 = true ∨ (a.1 = b.1 ∧ b.2 ≤ a.2).

(** The snapshot of [s] shows the counter of [s], when that is positive. *)
Definition agrees (fs : files) (s : string) : Prop :=
  ∀ c, counter fs s = Ok c → 0 < c →
       snapshot_draw fs s = Some ("Sorteo " +:+ pretty c).

(** The item carries the string [k] as its [type]. *)
Definition has_type (k : string) (it : hist_item) : Prop :=
  eq_str (default JNull (h_type it)) k = true.

#[global] Instance has_type_dec (k : string) (it : hist_item) : Decision (has_type k it).
Proof. unfold has_type. apply _. Defined.

(** The (series, index) pair a history item records: its [type] is a
    string and its [draw] converts to an integer. *)
Definition entry_of (it : hist_item) : option (string * Z) :=
  match h_type it, py_int (default JNull (h_draw it)) with
  | Some (JStr s), Ok n => Some (s, n)
  | _, _ => None
  end.

Definition is_entry (s : string) (n : Z) (it : hist_item) : Prop :=
  entry_of it = Some (s, n).

#[global] Instance is_entry_dec s n it : Decision (is_entry s n it).
Proof. unfold is_entry. apply _. Defined.

(** The number of items that record (s, n). *)
Definition count_entries (s : string) (n : Z) (items : list hist_item) : nat :=
  length (filter (is_entry s n) items).

(** No two items of the history file record the same (series, index). *)
Definition unique_history (fs : files) : Prop :=
  ∀ s n, (count_entries s n (items_of fs) ≤ 1)%nat.

(** No character of [s] is a plus sign. *)
Fixpoint no_plus (s : string) : bool :=
  match s with
  | EmptyString => true
  | String c s' => negb (Ascii.eqb c "+") && no_plus s'
  end.

(** ** Scenarios *)

Definition a_tuesday_utc : utc_time :=
  {| year := 2026; month := 11; day := 3;
     hour := 16; minute := 5; second := 0; microsecond := 0 |}.

Definition a_tuesday : local_time := {| weekday := 1; date_iso := "2026-11-03" |}.

Definition a_sunday_utc : utc_time :=
  {| year := 2026; month := 11; day := 8;
     hour := 16; minute := 5; second := 0; microsecond := 2500 |}.

Definition a_sunday : local_time := {| weekday := 6; date_iso := "2026-11-08" |}.

(** A server that has every document, and one that has none. *)
Definition serves_pdf : transport := λ _, Response 200 (Some "application/pdf"%string).
Definition serves_nothing : transport := λ _, Failed (HTTPError 404).

Definition tuesday_found : env :=
  {| now_utc := a_tuesday_utc; now_local := a_tuesday; urlopen := serves_pdf |}.
Definition tuesday_missing : env :=
  {| now_utc := a_tuesday_utc; now_local := a_tuesday; urlopen := serves_nothing |}.
Definition sunday_found : env :=
  {| now_utc := a_sunday_utc; now_local := a_sunday; urlopen := serves_pdf |}.

Definition no_files : files :=
  {| STATE_FILE := None; LATEST_FILE := None; HISTORY_FILE := None |}.

(** Scenario A of the specification: the counter of mayor is 5. *)
Definition mayor_at_5 : files :=
  {| STATE_FILE := Some {[ "mayor"%string := JInt 5 ]};
     LATEST_FILE := None; HISTORY_FILE := None |}.

(** Scenario D: the history records (zodiaco, 10), the counter was set
    back to 9. *)
Definition zodiaco_10 : hist_item :=
  new_item "zodiaco" "Sorteo Zodiaco" 10 "2026-11-01"
    "https://lotenal.gob.mx/documentos/listapremios/zodiaco/zodiaco10.pdf".

Definition zodiaco_set_back : files :=
  {| STATE_FILE := Some {[ "zodiaco"%string := JInt 9 ]};
     LATEST_FILE := None;
     HISTORY_FILE := Some {| hi_updated_at := Some "2026-11-01T16:00:00Z"%string;
                             hi_items := Some [zodiaco_10] |} |}.


Definition item_with_bad_draw : hist_item :=
  {| h_type := Some (JStr "mayor"); h_label := Some "Sorteo Mayor"%string;
     h_draw := Some (JStr "seis"); h_published_date := Some "2026-10-27"%string;
     h_pdf_url := None |}.

Definition mayor_at_5_bad_draw : files :=
  {| STATE_FILE := Some {[ "mayor"%string := JInt 5 ]};
     LATEST_FILE := None;
     HISTORY_FILE := Some {| hi_updated_at := Some ""%string;
                             hi_items := Some [item_with_bad_draw] |} |}.


(** The memory and the result of a run, when the run reached its body. *)
Definition memory_of (e : env) (fs : files) : mem := default (start fs) (main e fs).1.
Definition result_of (e : env) (fs : files) : result unit := (main e fs).2.

(** A server that answers every request with status 206. *)
Definition serves_partial : transport :=
  λ _, Response 206 (Some "application/pdf"%string).

Definition tuesday_partial : env :=
  {| now_utc := a_tuesday_utc; now_local := a_tuesday; urlopen := serves_partial |}.


Definition state_without_mayor : files :=
  {| STATE_FILE := Some {[ "zodiaco"%string := JInt 3 ]};
     LATEST_FILE := None; HISTORY_FILE := None |}.

(** A history in descending order, with the counter of mayor at 5. *)
Definition mayor_5 : hist_item :=
  new_item "mayor" "Sorteo Mayor" 5 "2026-10-27"
    "https://lotenal.gob.mx/documentos/listapremios/mayor/mayor5.pdf".

Definition mayor_4 : hist_item :=
  new_item "mayor" "Sorteo Mayor" 4 "2026-10-20"
    "https://lotenal.gob.mx/documentos/listapremios/mayor/mayor4.pdf".

Definition mayor_at_5_with_history : files :=
  {| STATE_FILE := Some {[ "mayor"%string := JInt 5 ]};
     LATEST_FILE := None;
     HISTORY_FILE := Some {| hi_updated_at := Some "2026-10-27T16:00:00Z"%string;
                             hi_items := Some [mayor_5; mayor_4] |} |}.

(** A Wednesday, which the schedule gives to no series. *)
Definition wednesday_found : env :=
  {| now_utc := a_tuesday_utc;
     now_local := {| weekday := 2; date_iso := "2026-11-04" |};
     urlopen := serves_pdf |}.

(** * Properties *)

(** ** The tables *)

Lemma SERIES_cases (k : string) :
  k ∈ SERIES → k = "mayor"%string ∨ k = "superior"%string ∨ k = "zodiaco"%string.
Proof. unfold SERIES. rewrite !elem_of_cons, elem_of_nil. tauto. Qed.

Lemma LABELS_lookup (k : string) : k ∈ SERIES → is_Some (LABELS !! k).
Proof. intros [-> | [-> | ->]]%SERIES_cases; vm_compute; eauto. Qed.

Lemma BASE_URLS_lookup (k : string) : k ∈ SERIES → is_Some (BASE_URLS !! k).
Proof. intros [-> | [-> | ->]]%SERIES_cases; vm_compute; eauto. Qed.

(** The locations of two series never coincide: they differ in the
    character that follows the common prefix. *)
Lemma location_series (k k' : string) (n n' : Z) :
  k ∈ SERIES → k' ∈ SERIES → location k n = location k' n' → k = k'.
Proof.
  intros [-> | [-> | ->]]%SERIES_cases [-> | [-> | ->]]%SERIES_cases H;
    try reflexivity; exfalso;
    apply (f_equal (String.get 47)) in H; vm_compute in H; discriminate H.
Qed.

(** Each series has its own weekday. *)
Lemma one_series_a_day (k k' : string) (nl : local_time) :
  k ∈ SERIES → k' ∈ SERIES →
  should_attempt_today k nl = true → should_attempt_today k' nl = true → k = k'.
Proof.
  unfold should_attempt_today.
  intros [-> | [-> | ->]]%SERIES_cases [-> | [-> | ->]]%SERIES_cases;
    rewrite !bool_decide_eq_true;
    change (default [] (SCHEDULE_WEEKDAYS !! "mayor"%string)) with [1];
    change (default [] (SCHEDULE_WEEKDAYS !! "superior"%string)) with [4];
    change (default [] (SCHEDULE_WEEKDAYS !! "zodiaco"%string)) with [6];
    rewrite !list_elem_of_singleton; intros; try reflexivity; lia.
Qed.

(** ** What one round of the loop does *)

Lemma attempt_skip (e : env) (key : string) (m : mem) :
  should_attempt_today key (now_local e) = false → attempt e key m = (m, Ok tt).
Proof. intros H. unfold attempt. rewrite H. reflexivity. Qed.

Lemma attempt_go (e : env) (key label : string) (m : mem) :
  LABELS !! key = Some label →
  is_Some (BASE_URLS !! key) →
  is_Some (l_results (latest m)) →
  should_attempt_today key (now_local e) = true →
  attempt e key m =
    match counter_of (state m) key with
    | Raise x => (m, Raise x)
    | Ok c =>
        let url := location key (c + 1) in
        let '(found, sent) := pdf_exists (urlopen e) url DEFAULT_TIMEOUT in
        if found then (advanced e key label c sent m, Ok tt)
        else (with_log (url, false) sent m, Ok tt)
    end.
Proof.
  intros Hl [tpl Hu] [res Hres] Hgate.
  unfold attempt, counter_of, advanced, location, getitem.
  rewrite Hgate, Hu, Hl. simpl negb. cbv iota.
  unfold mbind, M_bind, gets, lift, modify, probe. simpl.
  destruct (py_int (default (JInt 0) (state m !! key))) as [c | x]; [| reflexivity].
  destruct (pdf_exists (urlopen e) (format_n tpl (c + 1)) DEFAULT_TIMEOUT)
    as [[|] sent] eqn:Hp; simpl; [| reflexivity].
  rewrite Hres. simpl.
  destruct (in_existing key (c + 1) (existing m)); reflexivity.
Qed.

(** Only one series is due on a given day, so the loop comes down to the
    round of that series. *)
Lemma for_each_single {A : Type} (xs : list A) (body : A → M unit) (k : A) (m : mem) :
  NoDup xs → k ∈ xs →
  (∀ x m', x ∈ xs → x ≠ k → body x m' = (m', Ok tt)) →
  for_each xs body m = body k m.
Proof.
  assert (Hskip : ∀ (ys : list A) m',
             (∀ x m'', x ∈ ys → body x m'' = (m'', Ok tt)) →
             for_each ys body m' = (m', Ok tt)).
  { induction ys as [| y ys IH]; intros m' Hb; [reflexivity |].
    simpl. unfold mbind, M_bind. rewrite Hb by left.
    apply IH. intros x m'' Hx. apply Hb. by right. }
  intros Hnd; revert m. induction Hnd as [| x xs Hx Hnd IH]; intros m Hk Hb.
  - by apply elem_of_nil in Hk.
  - simpl. unfold mbind, M_bind.
    apply elem_of_cons in Hk as [-> | Hk].
    + destruct (body x m) as [m' [[] | err]]; [| reflexivity].
      apply Hskip. intros y m'' Hy. apply Hb; [by right |].
      intros ->. contradiction.
    + rewrite (Hb x m); [| by left | by intros ->].
      apply IH; [exact Hk |].
      intros y m' Hy. apply Hb. by right.
Qed.

Lemma for_each_none {A : Type} (xs : list A) (body : A → M unit) (m : mem) :
  (∀ x m', x ∈ xs → body x m' = (m', Ok tt)) →
  for_each xs body m = (m, Ok tt).
Proof.
  revert m. induction xs as [| x xs IH]; intros m Hb; [reflexivity |].
  simpl. unfold mbind, M_bind. rewrite Hb by left.
  apply IH. intros y m' Hy. apply Hb. by right.
Qed.

Lemma SERIES_NoDup : NoDup SERIES.
Proof. apply (bool_decide_unpack _). by vm_compute. Qed.

(** ** The end of a run *)

Lemma finish_spec (e : env) (m : mem) :
  finish e m =
    if updated_any m then
      match hi_items (history m) with
      | None => (stamped e m, Raise KeyError)
      | Some items =>
          match sort_reverse sort_key items with
          | Raise x => (stamped e m, Raise x)
          | Ok sorted => (saved sorted (stamped e m), Ok tt)
          end
      end
    else (m, Ok tt).
Proof.
  unfold finish, mbind, M_bind, gets, lift, modify. simpl.
  destruct (updated_any m); [| reflexivity]. simpl.
  destruct (hi_items (history m)) as [items |]; [| reflexivity]. simpl.
  destruct (sort_reverse sort_key items) as [sorted | x]; reflexivity.
Qed.

(** ** The start of a run *)

Lemma normalise_ok (l : latest_t) : normalise l = Ok (normalised l).
Proof. reflexivity. Qed.

Lemma startup_ok (fs : files) : startup fs = Ok (start fs).
Proof. reflexivity. Qed.

(** ** The outcomes of a run *)

Lemma items_advanced_spec (e : env) (fs : files) (k label : string) (c : Z)
    (sent : list request) :
  hi_items (history (advanced e k label c sent (start fs)))
  = Some (items_advanced e fs k label c).
Proof.
  unfold advanced, items_advanced. simpl.
  destruct (in_existing k (c + 1) (build_existing (items_of fs))) eqn:Hin; simpl.
  - unfold items_of in *. destruct (hi_items (loaded_history fs)); [reflexivity |].
    simpl in Hin. discriminate Hin.
  - reflexivity.
Qed.

Lemma body_outcome (e : env) (fs : files) :
  ∃ m r, body e (start fs) = (m, r) ∧ outcome e fs m r.
Proof.
  unfold body, mbind, M_bind.
  destruct (decide (Exists (λ k, should_attempt_today k (now_local e) = true) SERIES))
    as [(k & Hk & Hgate)%Exists_exists | Hnone].
  - rewrite (for_each_single SERIES (attempt e) k); [| apply SERIES_NoDup | exact Hk |].
    2:{ intros x m' Hx Hne. apply attempt_skip.
        destruct (should_attempt_today x (now_local e)) eqn:Hx'; [| reflexivity].
        destruct Hne. eapply one_series_a_day; eauto. }
    destruct (LABELS_lookup k Hk) as [label Hl].
    rewrite (attempt_go e k label); [| exact Hl | by apply BASE_URLS_lookup
                                    | by eexists | exact Hgate ].
    change (state (start fs)) with (counters fs).
    destruct (counter_of (counters fs) k) as [c | x] eqn:Hc.
    + cbv zeta.
      destruct (pdf_exists (urlopen e) (location k (c + 1)) DEFAULT_TIMEOUT)
        as [[|] sent] eqn:Hp.
      * rewrite finish_spec.
        change (updated_any (advanced e k label c sent (start fs))) with true.
        cbv iota. rewrite items_advanced_spec.
        destruct (sort_reverse sort_key (items_advanced e fs k label c))
          as [sorted | x] eqn:Hs; do 2 eexists; (split; [reflexivity |]).
        -- eapply written; eauto.
        -- eapply sort_raised; eauto.
      * rewrite finish_spec. simpl.
        do 2 eexists; split; [reflexivity |]. eapply not_found; eauto.
    + do 2 eexists; split; [reflexivity |]. eapply counter_unreadable; eauto.
  - assert (Hall : ∀ k, k ∈ SERIES → should_attempt_today k (now_local e) = false).
    { intros k Hk. destruct (should_attempt_today k (now_local e)) eqn:H; [| done].
      destruct Hnone. apply Exists_exists. eauto. }
    rewrite for_each_none by (intros; by apply attempt_skip, Hall).
    rewrite finish_spec. simpl.
    do 2 eexists; split; [reflexivity |]. by apply no_series_due.
Qed.

Lemma main_outcome (e : env) (fs : files) :
  ∃ m r, main e fs = (Some m, r) ∧ outcome e fs m r.
Proof.
  destruct (body_outcome e fs) as (m & r & Hb & Ho).
  exists m, r. split; [| exact Ho].
  unfold main. rewrite startup_ok, Hb. reflexivity.
Qed.

(** ** The probe *)

Lemma lower_empty (s : string) : lower s = ""%string ↔ s = ""%string.
Proof. destruct s; simpl; split; intros H; (reflexivity || discriminate H). Qed.

Lemma content_type_ok_iff (header : option string) :
  content_type_ok header = true ↔ absent header ∨ names_pdf header.
Proof.
  unfold content_type_ok, absent, names_pdf.
  destruct header as [h |].
  - assert (Hh : (if bool_decide (h = ""%string) then ""%string else h) = h)
      by (case_bool_decide; congruence).
    rewrite Hh, orb_true_iff, bool_decide_eq_true, lower_empty. split.
    + intros [H | ->]; [right; eauto | left; by right].
    + intros [[H | H] | (h' & H & Hc)]; [discriminate H | right; congruence |].
      left. congruence.
  - split; [intros _; left; by left | reflexivity].
Qed.

(** C7. [pdf_exists] follows the ordered two-step fallback. It answers
    Exists exactly when the HEAD request is answered with status 200 and an
    acceptable content type, or the HEAD request raises and the ranged GET
    is answered with status 200 or 206 and an acceptable content type. A
    HEAD response, whatever its status, ends the probe after that one
    request (so status 200 with another content type is NotFound without a
    second request); a HEAD that raises is followed by the GET, whose
    [Range] header asks for bytes 0 to 80; a GET that raises is NotFound. *)
Theorem pdf_exists_fallback (urlopen : transport) (url : string) (timeout_sec : Z) :
  let head := head_request url timeout_sec in
  let get := range_request url timeout_sec in
  let acceptable ct := absent ct ∨ names_pdf ct in
  let step1 := ∃ ct, urlopen head = Response 200 ct ∧ acceptable ct in
  let step2 := ∃ st ct, urlopen get = Response st ct ∧ (st = 200 ∨ st = 206)
                        ∧ acceptable ct in
  ((pdf_exists urlopen url timeout_sec).1 = true
   ↔ step1 ∨ ((∃ err, urlopen head = Failed err) ∧ step2))
  ∧ (∀ st ct, urlopen head = Response st ct →
       (pdf_exists urlopen url timeout_sec).2 = [head])
  ∧ (∀ ct, urlopen head = Response 200 ct → ¬ acceptable ct →
       pdf_exists urlopen url timeout_sec = (false, [head]))
  ∧ (∀ err, urlopen head = Failed err →
       (pdf_exists urlopen url timeout_sec).2 = [head; get])
  ∧ (∀ err err', urlopen head = Failed err → urlopen get = Failed err' →
       pdf_exists urlopen url timeout_sec = (false, [head; get]))
  ∧ req_method head = HEAD ∧ req_url head = url
  ∧ req_method get = GET ∧ req_url get = url
  ∧ req_headers get = [("Range", "bytes=0-80")]%string.
Proof.
  intros head get acceptable step1 step2.
  assert (Hacc : ∀ ct, content_type_ok ct = true ↔ acceptable ct)
    by apply content_type_ok_iff.
  unfold pdf_exists. fold head get. subst step1 step2.
  repeat split; try reflexivity.
  - destruct (urlopen head) as [st ct | err] eqn:H1.
    + destruct (st =? 200) eqn:Hst; simpl.
      * apply Z.eqb_eq in Hst as ->. intros Hok. left. exists ct.
        split; [reflexivity | by apply Hacc].
      * discriminate.
    + destruct (urlopen get) as [st ct | [code |]] eqn:H2; try discriminate.
      destruct ((st =? 200) || (st =? 206)) eqn:Hst; simpl; [| discriminate].
      intros Hok. right. split; [by eexists |]. exists st, ct.
      split; [reflexivity |]. split; [| by apply Hacc].
      apply orb_true_iff in Hst. rewrite !Z.eqb_eq in Hst. exact Hst.
  - intros [(ct & H1 & Hok) | ((err & H1) & (st & ct & H2 & Hst & Hok))].
    + rewrite H1. simpl. by apply Hacc.
    + rewrite H1, H2.
      assert (((st =? 200) || (st =? 206)) = true) as ->.
      { apply orb_true_iff. rewrite !Z.eqb_eq. exact Hst. }
      simpl. by apply Hacc.
  - intros st ct ->. destruct (negb (st =? 200)); reflexivity.
  - intros ct -> Hno. simpl. f_equal.
    destruct (content_type_ok ct) eqn:Hok; [| reflexivity].
    destruct Hno. by apply Hacc.
  - intros err ->.
    destruct (urlopen get) as [st ct | [code |]]; try reflexivity.
    destruct (negb ((st =? 200) || (st =? 206))); reflexivity.
  - intros err [code |] -> ->; reflexivity.
Qed.

(** ** The sort of the history *)

Lemma string_compare_refl (s : string) : String.compare s s = Eq.
Proof.
  induction s as [| a s IH]; simpl; [reflexivity |].
  unfold Ascii.compare. rewrite N.compare_refl. exact IH.
Qed.

Lemma string_ltb_total (a b : string) :
  String.ltb a b = false → a ≠ b → String.ltb b a = true.
Proof.
  unfold String.ltb. rewrite (String.compare_antisym b a).
  destruct (String.compare a b) eqn:H; simpl; try done.
  apply String.compare_eq_iff in H. done.
Qed.

Lemma string_ltb_trans (a b c : string) :
  String.ltb a b = true → String.ltb b c = true → String.ltb a c = true.
Proof.
  intros Hab Hbc.
  assert (Hle : ∀ x y, String.ltb x y = true → String.le x y).
  { intros x y. unfold String.le, String.ltb, String.leb.
    destruct (String.compare x y); done. }
  assert (Hac : String.le a c) by (trans b; apply Hle; assumption).
  destruct (String.ltb a c) eqn:H; [reflexivity | exfalso].
  destruct (decide (a = c)) as [-> | Hne].
  - assert (b = c) as -> by (apply (anti_symm String.le); auto).
    unfold String.ltb in Hbc. rewrite string_compare_refl in Hbc. done.
  - apply string_ltb_total in H; [| done].
    assert (a = c) by (apply (anti_symm String.le); auto). done.
Qed.

Lemma key_lt_false (a b : string * Z) : key_lt a b = false → key_ge a b.
Proof.
  unfold key_lt, key_ge. case_bool_decide as Heq.
  - intros H%Z.ltb_ge. right. done.
  - intros H. left. apply string_ltb_total; [exact H | exact Heq].
Qed.

Lemma key_lt_true (a b : string * Z) : key_lt a b = true → key_ge b a.
Proof.
  unfold key_lt, key_ge. case_bool_decide as Heq.
  - intros H%Z.ltb_lt. right. split; [done | lia].
  - intros H. by left.
Qed.

#[global] Instance key_ge_trans : Transitive key_ge.
Proof.
  intros a b c [Hab | [Hab Hab']] [Hbc | [Hbc Hbc']]; unfold key_ge.
  - left. eapply string_ltb_trans; eauto.
  - left. by rewrite <- Hbc.
  - left. by rewrite Hab.
  - right. split; [congruence | lia].
Qed.

Section insertion.
Context {A : Type}.
Implicit Types (x : (string * Z) * A) (l : list ((string * Z) * A)).

Lemma insert_desc_perm x l : insert_desc x l ≡ₚ x :: l.
Proof.
  induction l as [| y l IH]; simpl; [reflexivity |].
  destruct (key_lt x.1 y.1); [| reflexivity].
  rewrite IH. apply perm_swap.
Qed.

Lemma sorted_pairs_perm l : foldr insert_desc [] l ≡ₚ l.
Proof.
  induction l as [| x l IH]; simpl; [reflexivity |].
  rewrite insert_desc_perm. by f_equiv.
Qed.

Lemma insert_desc_sorted x l :
  StronglySorted (λ p q, key_ge p.1 q.1) l →
  StronglySorted (λ p q, key_ge p.1 q.1) (insert_desc x l).
Proof.
  induction 1 as [| y l Hl IH Hy]; simpl.
  - repeat constructor.
  - destruct (key_lt x.1 y.1) eqn:Hlt.
    + constructor; [exact IH |].
      rewrite insert_desc_perm. constructor; [| exact Hy].
      by apply key_lt_true.
    + apply key_lt_false in Hlt.
      constructor; [by constructor |].
      constructor; [exact Hlt |].
      eapply Forall_impl; [exact Hy |]. intros z Hz. simpl in *.
      by etrans.
Qed.

Lemma sorted_pairs_sorted l :
  StronglySorted (λ p q, key_ge p.1 q.1) (foldr insert_desc [] l).
Proof.
  induction l as [| x l IH]; simpl; [constructor |].
  by apply insert_desc_sorted.
Qed.
End insertion.

Lemma map_result_Forall2 {A B : Type} (f : A → result B) (l : list A) (ks : list B) :
  map_result f l = Ok ks ↔ Forall2 (λ x k, f x = Ok k) l ks.
Proof.
  revert ks. induction l as [| x l IH]; intros ks; simpl.
  - split; [intros [= <-]; constructor | by intros ->%Forall2_nil_inv_l].
  - unfold mbind, result_bind, mret, result_ret.
    destruct (f x) as [k |] eqn:Hk.
    + destruct (map_result f l) as [ks' |] eqn:Hks.
      * split.
        -- intros [= <-]. constructor; [exact Hk | by apply IH].
        -- intros (k' & ks'' & Hk' & Hks' & ->)%Forall2_cons_inv_l.
           apply IH in Hks'. congruence.
      * split; [discriminate |].
        intros (k' & ks'' & Hk' & Hks' & ->)%Forall2_cons_inv_l.
        apply IH in Hks'. discriminate.
    + split; [discriminate |].
      intros (k' & ks'' & Hk' & Hks' & ->)%Forall2_cons_inv_l. congruence.
Qed.

(** What [sort_reverse] returns: a rearrangement of the list whose keys
    descend. *)
Lemma sort_reverse_spec {A : Type} (key : A → result (string * Z))
    (items sorted : list A) :
  sort_reverse key items = Ok sorted →
  sorted ≡ₚ items ∧
  ∃ keys, map_result key sorted = Ok keys ∧ StronglySorted key_ge keys.
Proof.
  unfold sort_reverse, mbind, result_bind, mret, result_ret.
  destruct (map_result key items) as [ks |] eqn:Hks; [| discriminate].
  intros [= <-].
  apply map_result_Forall2 in Hks.
  assert (Hlen : length items = length ks) by (by eapply Forall2_length).
  set (ps := foldr insert_desc [] (zip ks items)).
  assert (Hperm : ps ≡ₚ zip ks items) by apply sorted_pairs_perm.
  split.
  - rewrite Hperm. rewrite snd_zip by lia. reflexivity.
  - exists (ps.*1). split.
    + apply map_result_Forall2.
      assert (Hall : Forall (λ p, key p.2 = Ok p.1) ps).
      { rewrite Hperm. clear -Hks.
        induction Hks; simpl; constructor; auto. }
      clear -Hall. induction Hall; simpl; constructor; auto.
    + assert (Hs : StronglySorted (λ p q, key_ge p.1 q.1) ps)
        by apply sorted_pairs_sorted.
      clear -Hs. induction Hs as [| p l Hl IH Hp]; simpl; constructor; [exact IH |].
      clear -Hp. induction Hp; simpl; constructor; auto.
Qed.

(** The sort returns whenever every key can be computed. *)
Lemma sort_reverse_total {A : Type} (key : A → result (string * Z)) (items : list A) :
  Forall (λ x, ∃ k, key x = Ok k) items → ∃ sorted, sort_reverse key items = Ok sorted.
Proof.
  intros Hall. unfold sort_reverse.
  assert (∃ ks, map_result key items = Ok ks) as [ks ->].
  { induction Hall as [| x l [k Hk] _ [ks IH]]; simpl; [by eexists |].
    rewrite Hk, IH. by eexists. }
  by eexists.
Qed.

(** ** The persisted views, before and after *)

Lemma written_counters e fs k label c sorted :
  counters (written_files e fs k label c sorted) = <[k := JInt (c + 1)]> (counters fs).
Proof. reflexivity. Qed.

Lemma written_results e fs k label c sorted :
  results_of (written_files e fs k label c sorted)
  = <[k := new_snapshot label (c + 1) (date_iso (now_local e)) (location k (c + 1))]>
      (normal_results (results_of fs)).
Proof. reflexivity. Qed.

Lemma written_items e fs k label c sorted :
  items_of (written_files e fs k label c sorted) = sorted.
Proof. reflexivity. Qed.

Section advanced_fields.
Context (e : env) (k label : string) (c : Z) (sent : list request) (m : mem).
Let m' := advanced e k label c sent m.

Lemma advanced_state : state m' = <[k := JInt (c + 1)]> (state m).
Proof. subst m'. unfold advanced. by destruct (in_existing _ _ _). Qed.

Lemma advanced_latest :
  latest m' = set_results
                <[k := new_snapshot label (c + 1) (date_iso (now_local e))
                         (location k (c + 1))]> (latest m).
Proof. subst m'. unfold advanced. by destruct (in_existing _ _ _). Qed.

Lemma advanced_probes : probes m' = probes m ++ [(location k (c + 1), true)].
Proof. subst m'. unfold advanced. by destruct (in_existing _ _ _). Qed.

Lemma advanced_requests : requests m' = requests m ++ sent.
Proof. subst m'. unfold advanced. by destruct (in_existing _ _ _). Qed.

Lemma advanced_disk : disk m' = disk m.
Proof. subst m'. unfold advanced. by destruct (in_existing _ _ _). Qed.

Lemma advanced_saves : saves m' = saves m.
Proof. subst m'. unfold advanced. by destruct (in_existing _ _ _). Qed.

Lemma advanced_updated_any : updated_any m' = true.
Proof. reflexivity. Qed.

Lemma advanced_history :
  history m' =
    if in_existing k (c + 1) (existing m) then history m
    else append_item (new_item k label (c + 1) (date_iso (now_local e))
                        (location k (c + 1))) (history m).
Proof. subst m'. unfold advanced. by destruct (in_existing _ _ _). Qed.
End advanced_fields.

Lemma saved_disk (e : env) (fs : files) (k label : string) (c : Z)
    (sent : list request) (sorted : list hist_item) :
  disk (saved sorted (stamped e (advanced e k label c sent (start fs))))
  = written_files e fs k label c sorted.
Proof.
  unfold saved, stamped, written_files, advanced.
  by destruct (in_existing _ _ _).
Qed.

Lemma run_disk (e : env) (fs : files) (m : mem) (r : result unit) :
  main e fs = (Some m, r) → run e fs = disk m.
Proof. unfold run. by intros ->. Qed.

(** Case analysis on the way a run ended. *)
Ltac outcome_cases Ho :=
  destruct Ho as [Hidle
                 | k x Hk Hgate Hc
                 | k c sent Hk Hgate Hc Hp
                 | k label c sent x Hk Hgate Hc Hp Hl Hsort
                 | k label c sent sorted Hk Hgate Hc Hp Hl Hsort].

(** A run either leaves the files as they are, or confirmed one document
    and wrote the three files. *)
Lemma run_cases (e : env) (fs : files) :
  run e fs = fs ∨
  ∃ k label c sent sorted,
    k ∈ SERIES ∧ should_attempt_today k (now_local e) = true ∧
    counter fs k = Ok c ∧
    pdf_exists (urlopen e) (location k (c + 1)) DEFAULT_TIMEOUT = (true, sent) ∧
    LABELS !! k = Some label ∧
    sort_reverse sort_key (items_advanced e fs k label c) = Ok sorted ∧
    run e fs = written_files e fs k label c sorted.
Proof.
  destruct (main_outcome e fs) as (m & r & Hm & Ho).
  rewrite (run_disk e fs m r Hm).
  outcome_cases Ho.
  - by left.
  - by left.
  - by left.
  - left. unfold stamped. cbn [disk with_history with_latest].
    by rewrite advanced_disk.
  - right. exists k, label, c, sent, sorted. rewrite saved_disk. done.
Qed.

(** Reads the fields of the memory at the end of a run. *)
Ltac fields :=
  unfold saved, stamped, start;
  cbn [state latest history existing updated_any disk probes requests saves
       with_state with_latest with_history with_existing with_updated_any
       with_disk with_log];
  rewrite ?advanced_state, ?advanced_latest, ?advanced_probes,
    ?advanced_requests, ?advanced_disk, ?advanced_saves, ?advanced_history;
  cbn [state latest history existing updated_any disk probes requests saves
       with_state with_latest with_history with_existing with_updated_any
       with_disk with_log app].

Lemma counter_of_insert (st : gmap string json) (k s : string) (n : Z) :
  counter_of (<[k := JInt n]> st) s
  = if decide (k = s) then Ok n else counter_of st s.
Proof.
  unfold counter_of. rewrite lookup_insert. by case_decide.
Qed.

(** ** Counters *)

(** C1. In every run and for every series [s], the counter [state[s]]
    advances if and only if [pdf_exists] answered Exists for the location
    formatted from the index [state[s] + 1] during the run, and the new
    value is that index. When the run returns, the counters it leaves in
    the file are those of its memory. *)
Theorem advance_iff_confirmed (e : env) (fs : files) (s : string) :
  s ∈ SERIES →
  ∃ m r, main e fs = (Some m, r)
    ∧ (counter_of (state m) s ≠ counter fs s
       ↔ ∃ c, counter fs s = Ok c ∧ (location s (c + 1), true) ∈ probes m)
    ∧ (∀ c, counter fs s = Ok c → counter_of (state m) s ≠ counter fs s →
         state m !! s = Some (JInt (c + 1)))
    ∧ (r = Ok tt → counters (run e fs) = state m).
Proof.
  intros Hs.
  destruct (main_outcome e fs) as (m & r & Hm & Ho).
  exists m, r. split; [exact Hm |].
  rewrite (run_disk e fs m r Hm). unfold counter.
  assert (Hadv : ∀ k c m',
             k ∈ SERIES → counter_of (counters fs) k = Ok c →
             state m' = <[k := JInt (c + 1)]> (counters fs) →
             probes m' = [(location k (c + 1), true)] →
             (counter_of (state m') s ≠ counter_of (counters fs) s
              ↔ ∃ c0, counter_of (counters fs) s = Ok c0
                      ∧ (location s (c0 + 1), true) ∈ probes m')
             ∧ (∀ c0, counter_of (counters fs) s = Ok c0 →
                  counter_of (state m') s ≠ counter_of (counters fs) s →
                  state m' !! s = Some (JInt (c0 + 1)))).
  { intros k c m' Hk Hc -> ->.
    rewrite counter_of_insert. destruct (decide (k = s)) as [-> | Hne].
    - rewrite Hc, lookup_insert_eq. split.
      + split; [| intros _ [=]; lia].
        intros _. exists c. split; [reflexivity |]. by apply list_elem_of_singleton.
      + intros c0 [= <-] _. reflexivity.
    - split; [| done]. split; [done |].
      intros (c0 & _ & [= Hloc]%list_elem_of_singleton).
      apply location_series in Hloc; done. }
  outcome_cases Ho.
  - fields. repeat split; try done. by intros (c & _ & ?%elem_of_nil).
  - fields. repeat split; try done. by intros (c & _ & ?%elem_of_nil).
  - fields. repeat split; try done.
    by intros (c0 & _ & [=]%list_elem_of_singleton).
  - destruct (Hadv k c (stamped e (advanced e k label c sent (start fs))))
      as [H1 H2]; try done; by fields.
  - destruct (Hadv k c
                (saved sorted (stamped e (advanced e k label c sent (start fs)))))
      as [H1 H2]; try done; by fields.
Qed.

Lemma runs_snoc (es : list env) (e : env) (fs : files) :
  runs (es ++ [e]) fs = run e (runs es fs).
Proof. unfold runs. by rewrite foldl_app. Qed.

(** What every run keeps holds after any sequence of runs. *)
Lemma runs_invariant (P : files → Prop) :
  (∀ e fs, P fs → P (run e fs)) → ∀ es fs, P fs → P (runs es fs).
Proof.
  intros Hstep es fs H. induction es as [| e es IH] using rev_ind; [exact H |].
  rewrite runs_snoc. by apply Hstep.
Qed.

Lemma counter_step (e : env) (fs : files) (s : string) (c : Z) :
  counter fs s = Ok c →
  counter (run e fs) s = Ok c ∨ counter (run e fs) s = Ok (c + 1).
Proof.
  intros Hc.
  destruct (run_cases e fs)
    as [-> | (k & label & c' & sent & sorted & Hk & Hg & Hc' & Hp & Hl & Hs & ->)].
  - by left.
  - unfold counter in *. rewrite written_counters, counter_of_insert.
    case_decide as Hks; [subst k | by left].
    right. congruence.
Qed.

(** C2. The counter of a series never decreases over a sequence of runs,
    and one more run leaves it unchanged or adds 1 to it. *)
Theorem counter_monotone (es : list env) (e : env) (fs : files) (s : string) (c : Z) :
  counter fs s = Ok c →
  ∃ c1 c2, counter (runs es fs) s = Ok c1
    ∧ counter (run e (runs es fs)) s = Ok c2
    ∧ c ≤ c1 ≤ c + Z.of_nat (length es)
    ∧ (c2 = c1 ∨ c2 = c1 + 1).
Proof.
  intros Hc.
  assert (Hes : ∃ c1, counter (runs es fs) s = Ok c1 ∧ c ≤ c1 ≤ c + Z.of_nat (length es)).
  { induction es as [| e' es IH] using rev_ind.
    - exists c. simpl. split; [exact Hc | lia].
    - destruct IH as (c1 & H1 & Hle). rewrite runs_snoc, length_app. simpl.
      destruct (counter_step e' _ s c1 H1) as [H | H]; eexists; (split; [exact H | lia]). }
  destruct Hes as (c1 & H1 & Hle).
  destruct (counter_step e _ s c1 H1) as [H | H]; exists c1; eexists;
    (split; [exact H1 | split; [exact H | split; [exact Hle | lia]]]).
Qed.

(** ** Runs that confirm nothing *)

Lemma not_found_no_change (e : env) (fs : files) (m : mem) (r : result unit) :
  main e fs = (Some m, r) →
  (∀ url, (url, true) ∉ probes m) →
  saves m = 0%nat ∧ disk m = fs ∧ updated_any m = false.
Proof.
  intros Hm Hno.
  destruct (main_outcome e fs) as (m' & r' & Hm' & Ho).
  rewrite Hm in Hm'. injection Hm' as <- <-.
  outcome_cases Ho; try done.
  - destruct (Hno (location k (c + 1))). fields. by apply list_elem_of_singleton.
  - destruct (Hno (location k (c + 1))). fields. by apply list_elem_of_singleton.
Qed.

(** C3. A run in which no probe answered Exists (every probe answered
    NotFound, or no series was due) calls [save_json] not once and leaves
    the three files, time stamps included, as they were; and a run that
    follows it under a prober that always answers NotFound leaves them as
    they were, too. *)
Theorem noop_run_writes_nothing (e1 e2 : env) (fs : files) (m : mem)
    (r : result unit) :
  main e1 fs = (Some m, r) →
  (∀ url, (url, true) ∉ probes m) →
  saves m = 0%nat ∧ run e1 fs = fs
  ∧ ((∀ url, (pdf_exists (urlopen e2) url DEFAULT_TIMEOUT).1 = false) →
     ∃ m2 r2, main e2 (run e1 fs) = (Some m2, r2) ∧ saves m2 = 0%nat
              ∧ run e2 (run e1 fs) = fs).
Proof.
  intros Hm Hno.
  destruct (not_found_no_change e1 fs m r Hm Hno) as (Hsaves & Hdisk & _).
  rewrite (run_disk e1 fs m r Hm), Hdisk.
  split; [exact Hsaves |]. split; [reflexivity |].
  intros Hnever.
  destruct (main_outcome e2 fs) as (m2 & r2 & Hm2 & Ho).
  exists m2, r2. split; [exact Hm2 |].
  rewrite (run_disk e2 fs m2 r2 Hm2).
  outcome_cases Ho; try done.
  - specialize (Hnever (location k (c + 1))). rewrite Hp in Hnever. discriminate.
  - specialize (Hnever (location k (c + 1))). rewrite Hp in Hnever. discriminate.
Qed.

(** ** The time stamp *)

Lemma no_plus_app (a b : string) : no_plus (a +:+ b) = no_plus a && no_plus b.
Proof.
  induction a as [| c a IH]; simpl; [reflexivity |].
  by rewrite IH, andb_assoc.
Qed.

Lemma zero_pad_no_plus (w n : nat) : no_plus (zero_pad w n) = true.
Proof.
  revert n. induction w as [| w IH]; intros n; [reflexivity |].
  cbn [zero_pad]. rewrite no_plus_app, IH. cbn [no_plus andb].
  generalize (n mod 10)%nat. intros d.
  do 9 (destruct d as [| d]; [reflexivity |]). reflexivity.
Qed.

Lemma isoformat_naive_no_plus (t : utc_time) : no_plus (isoformat_naive t) = true.
Proof.
  unfold isoformat_naive.
  rewrite !no_plus_app, !zero_pad_no_plus.
  destruct (microsecond t =? 0)%nat; [reflexivity |].
  rewrite no_plus_app, zero_pad_no_plus. reflexivity.
Qed.

Lemma prefix_other_head (a c : ascii) (s1 s2 : string) :
  a ≠ c → String.prefix (String a s1) (String c s2) = false.
Proof. intros Hne. cbn [String.prefix]. by destruct (ascii_dec a c). Qed.

Lemma replace_go_cons (old new : string) (c : ascii) (s : string) :
  replace_go old new 0 (String c s)
  = if String.prefix old (String c s)
    then new +:+ replace_go old new (String.length old - 1) s
    else String c (replace_go old new 0 s).
Proof. reflexivity. Qed.

Lemma replace_offset (s : string) :
  no_plus s = true → replace "+00:00" "Z" (s +:+ "+00:00") = s +:+ "Z".
Proof.
  unfold replace. induction s as [| c s IH]; [reflexivity |].
  cbn [no_plus]. intros [Hc Hs]%andb_true_iff.
  change (String c s +:+ "+00:00") with (String c (s +:+ "+00:00")).
  change (String c s +:+ "Z") with (String c (s +:+ "Z")).
  rewrite replace_go_cons, prefix_other_head.
  - f_equal. by apply IH.
  - intros <-. discriminate Hc.
Qed.

(** The stamp is the date and time of the run in UTC, followed by [Z]. *)
Lemma stamp_of_Z (e : env) : stamp_of e = isoformat_naive (now_utc e) +:+ "Z".
Proof. apply replace_offset, isoformat_naive_no_plus. Qed.

(** C9. A run stamps [updated_at] exactly when a series advanced: then one
    and the same instant, the UTC time of the run written with a final Z,
    is put on the snapshot collection and on the history log, and a run
    that writes leaves the two [updated_at] fields of the files equal to
    it; otherwise both fields keep what was loaded and nothing is written. *)
Theorem run_timestamp (e : env) (fs : files) :
  ∃ m r, main e fs = (Some m, r)
    ∧ (updated_any m = true
       ↔ ∃ s, s ∈ SERIES ∧ counter_of (state m) s ≠ counter fs s)
    ∧ (updated_any m = true →
         l_updated_at (latest m) = Some (stamp_of e)
         ∧ hi_updated_at (history m) = Some (stamp_of e))
    ∧ (updated_any m = false →
         l_updated_at (latest m) = l_updated_at (loaded_latest fs)
         ∧ hi_updated_at (history m) = hi_updated_at (loaded_history fs)
         ∧ saves m = 0%nat ∧ run e fs = fs)
    ∧ (saves m ≠ 0%nat →
         LATEST_FILE (run e fs) ≫= l_updated_at = Some (stamp_of e)
         ∧ HISTORY_FILE (run e fs) ≫= hi_updated_at = Some (stamp_of e))
    ∧ stamp_of e = isoformat_naive (now_utc e) +:+ "Z".
Proof.
  destruct (main_outcome e fs) as (m & r & Hm & Ho).
  exists m, r. split; [exact Hm |].
  rewrite (run_disk e fs m r Hm).
  assert (Hsame : ¬ ∃ s, s ∈ SERIES
                         ∧ counter_of (counters fs) s ≠ counter fs s)
    by (by intros (s & _ & H)).
  assert (Hadv : ∀ k c, k ∈ SERIES → counter_of (counters fs) k = Ok c →
             ∃ s, s ∈ SERIES
                  ∧ counter_of (<[k := JInt (c + 1)]> (counters fs)) s ≠ counter fs s).
  { intros k c Hk Hc. exists k. split; [exact Hk |].
    rewrite counter_of_insert, decide_True by done.
    unfold counter. rewrite Hc. intros [=]. lia. }
  outcome_cases Ho; fields; (repeat split; try done; try (by intros _; eauto));
    try apply stamp_of_Z.
Qed.

(** ** Snapshots and counters *)

Lemma setdefault_result_keep (k : string) (v' : snapshot)
    (r : gmap string snapshot) (s : string) (v : snapshot) :
  r !! s = Some v → setdefault_result k v' r !! s = Some v.
Proof.
  intros Hs. unfold setdefault_result.
  destruct (r !! k) eqn:Hk; [exact Hs |].
  rewrite lookup_insert_ne; [exact Hs | congruence].
Qed.

Lemma normal_results_keep (r : gmap string snapshot) (s : string) (v : snapshot) :
  r !! s = Some v → normal_results r !! s = Some v.
Proof.
  intros Hs. unfold normal_results. by do 3 apply setdefault_result_keep.
Qed.

Lemma agrees_step (e : env) (fs : files) (s : string) :
  agrees fs s → agrees (run e fs) s.
Proof.
  intros Hag.
  destruct (run_cases e fs)
    as [-> | (k & label & c' & sent & sorted & Hk & Hg & Hc' & Hp & Hl & Hs & ->)];
    [exact Hag |].
  intros c. unfold counter, snapshot_draw.
  rewrite written_counters, written_results, counter_of_insert, lookup_insert.
  case_decide as Hks.
  - intros [= <-] _. reflexivity.
  - intros Hc Hpos. specialize (Hag c Hc Hpos). unfold snapshot_draw in Hag.
    destruct (results_of fs !! s) as [v |] eqn:Hv; [| discriminate Hag].
    by rewrite (normal_results_keep _ _ _ Hv).
Qed.


(** The agreement holds when there are no files yet, hence after every
    sequence of runs that starts there. *)
Lemma agrees_no_files (s : string) : agrees no_files s.
Proof.
  intros c Hc Hpos. unfold counter, counter_of, counters in Hc. simpl in Hc.
  destruct (default_state !! s) as [v |] eqn:Hv.
  - apply elem_of_list_to_map_2 in Hv.
    rewrite !elem_of_cons, elem_of_nil in Hv.
    destruct Hv as [[= _ ->] | [[= _ ->] | [[= _ ->] | []]]];
      injection Hc as <-; lia.
  - injection Hc as <-. lia.
Qed.

Lemma agrees_from_no_files (es : list env) (s : string) : agrees (runs es no_files) s.
Proof.
  apply (runs_invariant (λ fs, agrees fs s)); [| apply agrees_no_files].
  intros e fs'. apply agrees_step.
Qed.

(** ** The schedule gate *)

Lemma pdf_exists_urls (net : transport) (url : string) (t : Z) (rq : request) :
  rq ∈ (pdf_exists net url t).2 → req_url rq = url.
Proof.
  unfold pdf_exists.
  destruct (net (head_request url t)) as [st ct | err].
  - destruct (negb (st =? 200)); simpl; by intros ->%list_elem_of_singleton.
  - assert (H : rq ∈ [head_request url t; range_request url t] → req_url rq = url).
    { rewrite !elem_of_cons, elem_of_nil. by intros [-> | [-> | []]]. }
    destruct (net (range_request url t)) as [st ct | [code |]]; try exact H.
    destruct (negb ((st =? 200) || (st =? 206))); exact H.
Qed.

Lemma items_advanced_other (e : env) (fs : files) (k k' label : string) (c : Z) :
  k ≠ k' →
  filter (has_type k) (items_advanced e fs k' label c)
  = filter (has_type k) (items_of fs).
Proof.
  intros Hne. unfold items_advanced.
  destruct (in_existing _ _ _); [reflexivity |].
  rewrite filter_app, filter_cons_False, filter_nil, app_nil_r; [reflexivity |].
  unfold has_type. simpl. rewrite bool_decide_eq_true. congruence.
Qed.

(** C8. The gate only looks the weekday up in the table and is closed for
    an identifier the table does not have. When it is closed for a series,
    the round of that series does nothing, and in the whole run no probe
    and no request goes to a location of that series, its counter stays,
    its snapshot stays and the history items of its type stay the same,
    whatever the network would have answered. *)
Theorem schedule_gate_closed (e : env) (fs : files) (key : string) :
  SCHEDULE_WEEKDAYS !! key = None ∨ should_attempt_today key (now_local e) = false →
  should_attempt_today key (now_local e)
    = bool_decide (weekday (now_local e) ∈ default [] (SCHEDULE_WEEKDAYS !! key))
  ∧ should_attempt_today key (now_local e) = false
  ∧ (∀ m, attempt e key m = (m, Ok tt))
  ∧ ∃ m r, main e fs = (Some m, r)
      ∧ (key ∈ SERIES → ∀ n found, (location key n, found) ∉ probes m)
      ∧ (key ∈ SERIES → ∀ rq n, rq ∈ requests m → req_url rq ≠ location key n)
      ∧ state m !! key = counters fs !! key
      ∧ counters (run e fs) !! key = counters fs !! key
      ∧ (∀ snap, results_of fs !! key = Some snap →
           results_of (run e fs) !! key = Some snap)
      ∧ filter (has_type key) (items_of (run e fs))
          ≡ₚ filter (has_type key) (items_of fs).
Proof.
  intros H.
  assert (Hclosed : should_attempt_today key (now_local e) = false).
  { destruct H as [H | H]; [| exact H].
    unfold should_attempt_today. rewrite H. reflexivity. }
  clear H. split; [reflexivity |]. split; [exact Hclosed |].
  split; [intros m; by apply attempt_skip |].
  destruct (main_outcome e fs) as (m & r & Hm & Ho).
  exists m, r. split; [exact Hm |].
  rewrite (run_disk e fs m r Hm).
  assert (Hurl : ∀ k' c sent rq n,
             key ∈ SERIES → k' ∈ SERIES → key ≠ k' →
             (pdf_exists (urlopen e) (location k' (c + 1)) DEFAULT_TIMEOUT).2 = sent →
             rq ∈ sent → req_url rq ≠ location key n).
  { intros k' c sent rq n Hkey Hk' Hne <- Hrq%pdf_exists_urls Heq.
    rewrite Hrq in Heq. apply location_series in Heq; done. }
  outcome_cases Ho.
  - fields. repeat split; try done;
      [intros _ *; apply not_elem_of_nil | by intros _ rq n ?%elem_of_nil].
  - fields. repeat split; try done;
      [intros _ *; apply not_elem_of_nil | by intros _ rq n ?%elem_of_nil].
  - assert (Hne : key ≠ k) by congruence.
    fields. repeat split; try done.
    + intros Hks n found [= Heq _]%list_elem_of_singleton.
      apply location_series in Heq; done.
    + intros Hks rq n Hrq. apply (Hurl k c sent rq n); try done. by rewrite Hp.
  - assert (Hne : key ≠ k) by congruence.
    fields. rewrite lookup_insert_ne by done. repeat split; try done.
    + intros Hks n found [= Heq _]%list_elem_of_singleton.
      apply location_series in Heq; done.
    + intros Hks rq n Hrq. apply (Hurl k c sent rq n); try done. by rewrite Hp.
  - assert (Hne : key ≠ k) by congruence.
    rewrite saved_disk, written_counters, written_results, written_items.
    fields. rewrite !lookup_insert_ne by done. repeat split; try done.
    + intros Hks n found [= Heq _]%list_elem_of_singleton.
      apply location_series in Heq; done.
    + intros Hks rq n Hrq. apply (Hurl k c sent rq n); try done. by rewrite Hp.
    + intros snap Hsnap. by apply normal_results_keep.
    + apply sort_reverse_spec in Hsort as [Hperm _].
      rewrite Hperm. by rewrite items_advanced_other.
Qed.

(** ** The dedupe set *)

Lemma is_entry_iff (s : string) (n : Z) (it : hist_item) :
  is_entry s n it
  ↔ h_type it = Some (JStr s) ∧ py_int (default JNull (h_draw it)) = Ok n.
Proof.
  unfold is_entry, entry_of.
  destruct (h_type it) as [[] |], (py_int (default JNull (h_draw it)));
    split; try (intros [H1 H2]; congruence); intros H; try discriminate H.
  split; congruence.
Qed.

Lemma dedupe_pair_entry (s : string) (n : Z) (it : hist_item) :
  match dedupe_pair it with
  | Some p => eq_str p.1 s && (p.2 =? n) = true ↔ is_entry s n it
  | None => ¬ is_entry s n it
  end.
Proof.
  pose proof (is_entry_iff s n it) as Hiff. unfold dedupe_pair.
  destruct (py_int (default JNull (h_draw it))) as [d | x].
  - destruct (h_type it) as [[] |]; simpl;
      rewrite ?Hiff, ?andb_true_iff, ?bool_decide_eq_true, ?Z.eqb_eq;
      clear Hiff; intuition congruence.
  - rewrite Hiff. intros [_ H]. discriminate H.
Qed.

Lemma in_existing_build (s : string) (n : Z) (items : list hist_item) :
  in_existing s n (build_existing items) = true
  ↔ ∃ it, it ∈ items ∧ is_entry s n it.
Proof.
  unfold build_existing.
  assert (H : ∀ acc,
             in_existing s n
               (foldl (λ existing it,
                         match dedupe_pair it with
                         | Some p => p :: existing
                         | None => existing
                         end) acc items) = true
             ↔ in_existing s n acc = true ∨ ∃ it, it ∈ items ∧ is_entry s n it).
  { induction items as [| it items IH]; intros acc; simpl.
    - split; [by left | intros [H | (it & []%elem_of_nil & _)]; exact H].
    - rewrite IH. pose proof (dedupe_pair_entry s n it) as Hit.
      destruct (dedupe_pair it) as [p |].
      + cbn [in_existing existsb]. rewrite orb_true_iff, Hit. split.
        * intros [[H | H] | (it' & Hin & H)]; [right; exists it; split; [left | done]
                                              | by left
                                              | right; exists it'; split; [by right | done]].
        * intros [H | (it' & [-> | Hin]%elem_of_cons & H)];
            [left; by right | left; by left | right; eauto].
      + split.
        * intros [H | (it' & Hin & H)]; [by left |].
          right. exists it'. split; [by right | done].
        * intros [H | (it' & [-> | Hin]%elem_of_cons & H)];
            [by left | done | right; eauto]. }
  rewrite H. cbn [in_existing existsb]. split; [intros [[=] | H']; exact H' | by right].
Qed.

(** The history the memory holds at the end of a run that confirmed index
    [c + 1] of series [k]. *)
Lemma confirmed_history (e : env) (fs : files) (key : string) (idx : Z) :
  key ∈ SERIES → should_attempt_today key (now_local e) = true →
  counter fs key = Ok idx →
  (pdf_exists (urlopen e) (location key (idx + 1)) DEFAULT_TIMEOUT).1 = true →
  ∃ m r label items,
    main e fs = (Some m, r) ∧ LABELS !! key = Some label
    ∧ hi_items (history m) = Some items
    ∧ items ≡ₚ items_advanced e fs key label idx
    ∧ (r = Ok tt → run e fs = written_files e fs key label idx items)
    ∧ (r = Ok tt
       ↔ ∃ keys, map_result sort_key (items_advanced e fs key label idx) = Ok keys).
Proof.
  intros Hs Hg Hcs Hfound.
  destruct (main_outcome e fs) as (m & r & Hm & Ho).
  exists m, r. rewrite (run_disk e fs m r Hm).
  assert (Hsame : ∀ k', k' ∈ SERIES → should_attempt_today k' (now_local e) = true →
                        k' = key) by (intros; by eapply one_series_a_day).
  unfold counter in Hcs.
  outcome_cases Ho.
  - rewrite Hidle in Hg by done. discriminate.
  - apply Hsame in Hk as ->; [| done]. congruence.
  - apply Hsame in Hk as ->; [| done].
    assert (c = idx) as -> by congruence. rewrite Hp in Hfound. discriminate.
  - apply Hsame in Hk as ->; [| done]. assert (c = idx) as -> by congruence.
    exists label, (items_advanced e fs key label idx).
    split; [exact Hm |]. split; [exact Hl |].
    unfold stamped.
    cbn [history hi_items with_history with_latest set_history_updated_at].
    rewrite items_advanced_spec.
    split; [done |]. split; [done |]. split; [done |].
    split; [done |]. intros [keys Hkeys]. unfold sort_reverse in Hsort.
    rewrite Hkeys in Hsort. discriminate.
  - apply Hsame in Hk as ->; [| done]. assert (c = idx) as -> by congruence.
    exists label, sorted.
    split; [exact Hm |]. split; [exact Hl |]. rewrite saved_disk. fields.
    split; [done |]. split; [by apply sort_reverse_spec in Hsort as [? _] |].
    split; [done |]. split; [| done]. intros _.
    unfold sort_reverse in Hsort.
    destruct (map_result sort_key (items_advanced e fs key label idx));
      [by eexists | done].
Qed.


(** ** Uniqueness in the history *)

Lemma count_entries_perm (s : string) (n : Z) (l l' : list hist_item) :
  l ≡ₚ l' → count_entries s n l = count_entries s n l'.
Proof. intros H. unfold count_entries. by rewrite H. Qed.

Lemma count_entries_zero (s : string) (n : Z) (l : list hist_item) :
  (∀ it, it ∈ l → ¬ is_entry s n it) → count_entries s n l = 0%nat.
Proof.
  unfold count_entries. induction l as [| it l IH]; intros H; [reflexivity |].
  rewrite filter_cons_False by (apply H; by left).
  apply IH. intros it' Hit'. apply H. by right.
Qed.

Lemma new_item_entry (s k label : string) (n c : Z) (date url : string) :
  is_entry s n (new_item k label c date url) ↔ s = k ∧ n = c.
Proof. rewrite is_entry_iff. simpl. split; intros [H1 H2]; split; congruence. Qed.

Lemma count_entries_advanced (e : env) (fs : files) (k label : string) (c : Z)
    (s : string) (n : Z) :
  (count_entries s n (items_of fs) ≤ 1)%nat →
  (count_entries s n (items_of fs) ≤ count_entries s n (items_advanced e fs k label c)
   ≤ 1)%nat.
Proof.
  intros Hle. unfold items_advanced.
  destruct (in_existing k (c + 1) (build_existing (items_of fs))) eqn:Hin; [lia |].
  unfold count_entries in *. rewrite filter_app, length_app.
  destruct (decide (is_entry s n (new_item k label (c + 1) (date_iso (now_local e))
                                    (location k (c + 1))))) as [Hnew | Hnew].
  - rewrite filter_cons_True by done. simpl.
    apply new_item_entry in Hnew as [-> ->].
    assert (length (filter (is_entry k (c + 1)) (items_of fs)) = 0%nat) as ->; [| lia].
    apply count_entries_zero. intros it Hit Hent.
    assert (in_existing k (c + 1) (build_existing (items_of fs)) = true).
    { apply in_existing_build. eauto. }
    congruence.
  - rewrite filter_cons_False by done. simpl. lia.
Qed.

Lemma unique_history_step (e : env) (fs : files) :
  unique_history fs → unique_history (run e fs).
Proof.
  intros Hu.
  destruct (run_cases e fs)
    as [-> | (k & label & c & sent & sorted & Hk & Hg & Hc & Hp & Hl & Hs & ->)];
    [exact Hu |].
  intros s n. rewrite written_items.
  apply sort_reverse_spec in Hs as [Hperm _].
  rewrite (count_entries_perm s n _ _ Hperm).
  by apply count_entries_advanced.
Qed.

(** C4. If the history file holds at most one item for every
    (series, index), it still does after any sequence of runs. In
    particular, when a further run confirms index c + 1 of series k while
    the history already records (k, c + 1) (the counter was set back) and
    every item has a sort key, the run writes the counter c + 1 and the
    snapshot of that index, and the history still holds exactly one item
    for (k, c + 1). *)
Theorem history_dedupe (es : list env) (e : env) (fs : files) (k : string) (c : Z) :
  unique_history fs →
  unique_history (runs es fs)
  ∧ (k ∈ SERIES → should_attempt_today k (now_local e) = true →
     counter (runs es fs) k = Ok c →
     (pdf_exists (urlopen e) (location k (c + 1)) DEFAULT_TIMEOUT).1 = true →
     count_entries k (c + 1) (items_of (runs es fs)) = 1%nat →
     Forall (λ it, ∃ key, sort_key it = Ok key) (items_of (runs es fs)) →
     counter (run e (runs es fs)) k = Ok (c + 1)
     ∧ snapshot_draw (run e (runs es fs)) k = Some ("Sorteo " +:+ pretty (c + 1))
     ∧ count_entries k (c + 1) (items_of (run e (runs es fs))) = 1%nat).
Proof.
  intros Hu.
  assert (Hes : unique_history (runs es fs))
    by (by apply (runs_invariant unique_history unique_history_step)).
  split; [exact Hes |].
  generalize dependent (runs es fs). clear Hu. intros fs' Hu Hk Hg Hc Hfound Hone Hkeys.
  destruct (confirmed_history e fs' k c Hk Hg Hc Hfound)
    as (m & r & label & items & Hm & Hl & Hitems & Hperm & Hrun & Hr).
  assert (Hadv : items_advanced e fs' k label c = items_of fs').
  { unfold items_advanced.
    destruct (in_existing k (c + 1) (build_existing (items_of fs'))) eqn:Hin; [done |].
    assert (count_entries k (c + 1) (items_of fs') = 0%nat); [| lia].
    apply count_entries_zero. intros it Hit Hent.
    assert (in_existing k (c + 1) (build_existing (items_of fs')) = true).
    { apply in_existing_build. eauto. }
    congruence. }
  assert (Hok : r = Ok tt).
  { apply Hr. rewrite Hadv.
    clear -Hkeys. induction Hkeys as [| it l [key Hkey] _ [keys IH]].
    - by exists [].
    - exists (key :: keys). apply map_result_Forall2. constructor; [exact Hkey |].
      by apply map_result_Forall2. }
  rewrite (Hrun Hok). unfold counter, snapshot_draw.
  rewrite written_counters, written_results, written_items, counter_of_insert,
    decide_True, lookup_insert_eq by done.
  repeat split. rewrite (count_entries_perm _ _ _ _ Hperm), Hadv. exact Hone.
Qed.

(** There are no two items for one (series, index) when there are no
    files yet, hence after every sequence of runs that starts there. *)
Lemma unique_history_from_no_files (es : list env) : unique_history (runs es no_files).
Proof.
  apply (runs_invariant unique_history unique_history_step).
  intros s n. vm_compute. lia.
Qed.

(** ** The order of the history *)



(** ** The theorems at work *)

Lemma advance_iff_confirmed_witness :
  "mayor"%string ∈ SERIES
  ∧ ∃ m r, main tuesday_found mayor_at_5 = (Some m, r)
    ∧ (counter_of (state m) "mayor" ≠ counter mayor_at_5 "mayor"
       ↔ ∃ c, counter mayor_at_5 "mayor" = Ok c
              ∧ (location "mayor" (c + 1), true) ∈ probes m)
    ∧ (∀ c, counter mayor_at_5 "mayor" = Ok c →
         counter_of (state m) "mayor" ≠ counter mayor_at_5 "mayor" →
         state m !! "mayor"%string = Some (JInt (c + 1)))
    ∧ (r = Ok tt → counters (run tuesday_found mayor_at_5) = state m).
Proof.
  assert (H : "mayor"%string ∈ SERIES) by (vm_compute; left).
  split; [exact H |].
  exact (advance_iff_confirmed tuesday_found mayor_at_5 "mayor" H).
Defined.

Lemma counter_monotone_witness :
  counter mayor_at_5 "mayor" = Ok 5
  ∧ ∃ c1 c2, counter (runs [tuesday_missing; tuesday_found] mayor_at_5) "mayor" = Ok c1
      ∧ counter (run tuesday_found (runs [tuesday_missing; tuesday_found] mayor_at_5))
          "mayor" = Ok c2
      ∧ 5 ≤ c1 ≤ 5 + Z.of_nat (length [tuesday_missing; tuesday_found])
      ∧ (c2 = c1 ∨ c2 = c1 + 1).
Proof.
  assert (H : counter mayor_at_5 "mayor" = Ok 5) by reflexivity.
  split; [exact H |].
  exact (counter_monotone [tuesday_missing; tuesday_found] tuesday_found
           mayor_at_5 "mayor" 5 H).
Defined.

Lemma noop_run_writes_nothing_witness :
  main tuesday_missing mayor_at_5
    = (Some (memory_of tuesday_missing mayor_at_5),
       result_of tuesday_missing mayor_at_5)
  ∧ (∀ url, (url, true) ∉ probes (memory_of tuesday_missing mayor_at_5))
  ∧ saves (memory_of tuesday_missing mayor_at_5) = 0%nat
  ∧ run tuesday_missing mayor_at_5 = mayor_at_5
  ∧ ((∀ url, (pdf_exists (urlopen tuesday_missing) url DEFAULT_TIMEOUT).1 = false) →
     ∃ m2 r2, main tuesday_missing (run tuesday_missing mayor_at_5) = (Some m2, r2)
              ∧ saves m2 = 0%nat
              ∧ run tuesday_missing (run tuesday_missing mayor_at_5) = mayor_at_5).
Proof.
  assert (H1 : main tuesday_missing mayor_at_5
               = (Some (memory_of tuesday_missing mayor_at_5),
                  result_of tuesday_missing mayor_at_5)) by (vm_compute; reflexivity).
  assert (H2 : ∀ url, (url, true) ∉ probes (memory_of tuesday_missing mayor_at_5)).
  { intros url Hin. vm_compute in Hin.
    apply list_elem_of_singleton in Hin. discriminate Hin. }
  split; [exact H1 |]. split; [exact H2 |].
  exact (noop_run_writes_nothing tuesday_missing tuesday_missing mayor_at_5 _ _ H1 H2).
Defined.



Lemma schedule_gate_closed_witness :
  (SCHEDULE_WEEKDAYS !! "superior"%string = None
   ∨ should_attempt_today "superior" (now_local tuesday_found) = false)
  ∧ should_attempt_today "superior" (now_local tuesday_found)
      = bool_decide (weekday (now_local tuesday_found)
                       ∈ default [] (SCHEDULE_WEEKDAYS !! "superior"%string))
  ∧ should_attempt_today "superior" (now_local tuesday_found) = false
  ∧ (∀ m, attempt tuesday_found "superior" m = (m, Ok tt))
  ∧ ∃ m r, main tuesday_found mayor_at_5 = (Some m, r)
      ∧ ("superior"%string ∈ SERIES →
           ∀ n found, (location "superior" n, found) ∉ probes m)
      ∧ ("superior"%string ∈ SERIES →
           ∀ rq n, rq ∈ requests m → req_url rq ≠ location "superior" n)
      ∧ state m !! "superior"%string = counters mayor_at_5 !! "superior"%string
      ∧ counters (run tuesday_found mayor_at_5) !! "superior"%string
          = counters mayor_at_5 !! "superior"%string
      ∧ (∀ snap, results_of mayor_at_5 !! "superior"%string = Some snap →
           results_of (run tuesday_found mayor_at_5) !! "superior"%string = Some snap)
      ∧ filter (has_type "superior") (items_of (run tuesday_found mayor_at_5))
          ≡ₚ filter (has_type "superior") (items_of mayor_at_5).
Proof.
  assert (H : SCHEDULE_WEEKDAYS !! "superior"%string = None
              ∨ should_attempt_today "superior" (now_local tuesday_found) = false)
    by (right; reflexivity).
  split; [exact H |].
  exact (schedule_gate_closed tuesday_found mayor_at_5 "superior" H).
Defined.

Lemma history_dedupe_witness :
  unique_history zodiaco_set_back
  ∧ unique_history (runs [tuesday_missing] zodiaco_set_back)
  ∧ counter (run sunday_found (runs [tuesday_missing] zodiaco_set_back)) "zodiaco"
      = Ok (9 + 1)
  ∧ snapshot_draw (run sunday_found (runs [tuesday_missing] zodiaco_set_back)) "zodiaco"
      = Some ("Sorteo " +:+ pretty (9 + 1))
  ∧ count_entries "zodiaco" (9 + 1)
      (items_of (run sunday_found (runs [tuesday_missing] zodiaco_set_back))) = 1%nat.
Proof.
  assert (H : unique_history zodiaco_set_back).
  { intros s n. unfold count_entries.
    etrans; [apply length_filter |]. vm_compute. lia. }
  split; [exact H |].
  destruct (history_dedupe [tuesday_missing] sunday_found zodiaco_set_back
              "zodiaco" 9 H) as [Hu Hd].
  split; [exact Hu |].
  apply Hd.
  - vm_compute. do 2 right. left.
  - reflexivity.
  - reflexivity.
  - reflexivity.
  - reflexivity.
  - vm_compute. constructor; [| constructor]. eexists. reflexivity.
Defined.



(** An item whose [draw] is no number passes the dedupe loop, yet the sort
    converts it again, outside any [try]: a run that confirmed a document
    then raises before it saves, and the files stay as they were. *)
Lemma bad_draw_stops_the_run :
  dedupe_pair item_with_bad_draw = None
  ∧ result_of tuesday_found mayor_at_5_bad_draw = Raise ValueError
  ∧ probes (memory_of tuesday_found mayor_at_5_bad_draw)
      = [(location "mayor" 6, true)]
  ∧ state (memory_of tuesday_found mayor_at_5_bad_draw) !! "mayor"%string
      = Some (JInt 6)
  ∧ run tuesday_found mayor_at_5_bad_draw = mayor_at_5_bad_draw.
Proof. repeat split; vm_compute; reflexivity. Qed.

(** * Further properties of the code *)

(** ** [pdf_exists] *)

(** X1. A HEAD response whose status is not 200 ends the probe with
    NotFound after that one request: it is not an exception, so the ranged
    GET is never tried, whatever it would have answered. *)
Theorem head_status_not_200_is_final (net : transport) (url : string) (t st : Z)
    (ct : option string) :
  net (head_request url t) = Response st ct → st ≠ 200 →
  pdf_exists net url t = (false, [head_request url t]).
Proof.
  intros Hhead Hst. unfold pdf_exists. rewrite Hhead.
  apply Z.eqb_neq in Hst. rewrite Hst. reflexivity.
Qed.

Lemma head_status_not_200_is_final_witness :
  serves_partial (head_request "u" 12) = Response 206 (Some "application/pdf"%string)
  ∧ 206 ≠ 200
  ∧ serves_partial (range_request "u" 12) = Response 206 (Some "application/pdf"%string)
  ∧ pdf_exists serves_partial "u" 12 = (false, [head_request "u" 12]).
Proof.
  assert (H1 : serves_partial (head_request "u" 12)
               = Response 206 (Some "application/pdf"%string)) by reflexivity.
  assert (H2 : 206 ≠ 200) by lia.
  split; [exact H1 |]. split; [exact H2 |]. split; [reflexivity |].
  exact (head_status_not_200_is_final serves_partial "u" 12 206 _ H1 H2).
Defined.

Lemma string_append_cons (c : ascii) (a b : string) : String c a +:+ b = String c (a +:+ b).
Proof. reflexivity. Qed.

Lemma string_prefix_app (needle hay : string) :
  String.prefix needle hay = true ↔ ∃ b, hay = needle +:+ b.
Proof.
  revert needle. induction hay as [| c' hay IH]; intros [| c needle];
    cbn [String.prefix]; rewrite ?string_append_cons.
  - split; [intros _; by exists ""%string | reflexivity].
  - split; [discriminate | intros [b Hb]; discriminate Hb].
  - split; [intros _; by eexists | reflexivity].
  - destruct (ascii_dec c c') as [<- | Hne].
    + rewrite IH. split; intros [b Hb]; exists b;
        rewrite ?string_append_cons in *; congruence.
    + split; [discriminate | intros [b Hb]; rewrite string_append_cons in Hb; congruence].
Qed.

Lemma contains_substring (needle hay : string) :
  contains needle hay = true ↔ ∃ a b, hay = a +:+ needle +:+ b.
Proof.
  induction hay as [| c hay IH].
  - cbn [contains]. rewrite orb_false_r, string_prefix_app. split.
    + intros [b Hb]. exists ""%string, b. exact Hb.
    + intros (a & b & Hab). destruct a as [| c a]; [by exists b | discriminate Hab].
  - cbn [contains]. rewrite orb_true_iff, string_prefix_app, IH. split.
    + intros [[b Hb] | (a & b & Hab)]; [exists ""%string, b; exact Hb |].
      exists (String c a), b. by rewrite string_append_cons, Hab.
    + intros (a & b & Hab). destruct a as [| c' a]; [left; by exists b |].
      right. exists a, b. rewrite string_append_cons in Hab. congruence.
Qed.

(** X2. The content-type test accepts exactly a missing header, an empty
    header, and a header whose lower-case form has [pdf] somewhere in it. *)
Theorem content_type_ok_substring (header : option string) :
  content_type_ok header = true
  ↔ header = None ∨ header = Some ""%string
    ∨ ∃ h a b, header = Some h ∧ lower h = a +:+ "pdf" +:+ b.
Proof.
  rewrite content_type_ok_iff. unfold absent, names_pdf. split.
  - intros [[H | H] | (h & H & Hc)]; [by left | right; by left |].
    apply contains_substring in Hc as (a & b & Hab). right. right. by exists h, a, b.
  - intros [H | [H | (h & a & b & H & Hab)]]; [left; by left | left; by right |].
    right. exists h. split; [exact H |]. apply contains_substring. by exists a, b.
Qed.

(** ** Locations *)

Lemma string_append_cancel_r (s1 s2 t : string) : s1 +:+ t = s2 +:+ t → s1 = s2.
Proof.
  assert (Hlen : ∀ a b, String.length (a +:+ b) = (String.length a + String.length b)%nat).
  { induction a as [| c a IH]; intros b; [reflexivity |].
    rewrite string_append_cons. cbn [String.length]. by rewrite IH. }
  revert s2. induction s1 as [| c s1 IH]; intros [| c' s2] H;
    rewrite ?string_append_cons in H.
  - reflexivity.
  - apply (f_equal String.length) in H. rewrite ?Hlen in H.
    cbn [String.length] in H. rewrite ?Hlen in H. lia.
  - apply (f_equal String.length) in H. rewrite ?Hlen in H.
    cbn [String.length] in H. rewrite ?Hlen in H. lia.
  - injection H as -> H. f_equal. by apply IH.
Qed.

(** The locations, written out. *)
Lemma location_shape (k : string) (n : Z) :
  k ∈ SERIES →
  location k n
  = ("https://lotenal.gob.mx/documentos/listapremios/" +:+ k +:+ "/" +:+ k)
      +:+ pretty n +:+ ".pdf".
Proof. intros [-> | [-> | ->]]%SERIES_cases; reflexivity. Qed.

(** X3. Two different (series, index) pairs never share a location. *)
Theorem location_injective (k k' : string) (n n' : Z) :
  k ∈ SERIES → k' ∈ SERIES → (k, n) ≠ (k', n') → location k n ≠ location k' n'.
Proof.
  intros Hk Hk' Hne Heq.
  assert (k = k') as <- by (by eapply location_series).
  apply Hne. f_equal.
  rewrite !location_shape in Heq by done.
  apply (inj (String.app _)), string_append_cancel_r in Heq.
  by apply (inj pretty) in Heq.
Qed.

Lemma location_injective_witness :
  "mayor"%string ∈ SERIES ∧ ("mayor"%string, 6) ≠ ("mayor"%string, 7)
  ∧ location "mayor" 6 ≠ location "mayor" 7.
Proof.
  assert (H1 : "mayor"%string ∈ SERIES) by (vm_compute; left).
  assert (H2 : ("mayor"%string, 6) ≠ ("mayor"%string, 7)) by discriminate.
  split; [exact H1 |]. split; [exact H2 |].
  exact (location_injective "mayor" "mayor" 6 7 H1 H1 H2).
Defined.

(** ** When a run raises *)

Lemma map_result_raises {A B : Type} (f : A → result B) (l : list A) :
  (∃ x, map_result f l = Raise x) ↔ ∃ it x, it ∈ l ∧ f it = Raise x.
Proof.
  induction l as [| a l IH]; simpl.
  - split; [by intros [x H] | by intros (it & x & H%elem_of_nil & _)].
  - unfold mbind, result_bind, mret, result_ret.
    destruct (f a) as [b |] eqn:Ha.
    + destruct (map_result f l) as [bs | x'] eqn:Hl.
      * split; [by intros [x H] |].
        intros (it & x & [-> | Hin]%elem_of_cons & Hit); [congruence |].
        destruct (proj2 IH) as [x0 H0]; [eauto | discriminate H0].
      * split; [| by eexists].
        intros _. destruct (proj1 IH) as (it & x & Hin & Hit); [by eexists |].
        exists it, x. split; [by right | done].
    + split; [| by eexists]. intros _. exists a, e. split; [by left | done].
Qed.

Lemma sort_key_raises (it : hist_item) (x : exn) :
  sort_key it = Raise x ↔ ∃ v, h_draw it = Some v ∧ py_int v = Raise x.
Proof.
  unfold sort_key, mbind, result_bind, mret, result_ret.
  destruct (h_draw it) as [v |]; simpl.
  - destruct (py_int v) as [d | x'] eqn:Hv.
    + split; [discriminate | intros (v' & [= <-] & H); congruence].
    + split; [intros [= <-]; eauto | intros (v' & [= <-] & H); congruence].
  - split; [discriminate | by intros (v & H & _)].
Qed.

Lemma items_advanced_raises (e : env) (fs : files) (k label : string) (c : Z) :
  (∃ x, map_result sort_key (items_advanced e fs k label c) = Raise x)
  ↔ ∃ it v x, it ∈ items_of fs ∧ h_draw it = Some v ∧ py_int v = Raise x.
Proof.
  rewrite map_result_raises. unfold items_advanced.
  split.
  - intros (it & x & Hin & Hit).
    assert (it ∈ items_of fs) as Hold.
    { destruct (in_existing _ _ _); [exact Hin |].
      apply elem_of_app in Hin as [Hin | ->%list_elem_of_singleton]; [exact Hin |].
      discriminate Hit. }
    apply sort_key_raises in Hit as (v & Hv & Hx). eauto 6.
  - intros (it & v & x & Hin & Hv & Hx). exists it, x. split.
    + destruct (in_existing _ _ _); [exact Hin | apply elem_of_app; by left].
    + apply sort_key_raises. eauto.
Qed.





(** ** What a run writes *)


Lemma normal_results_lookup (r : gmap string snapshot) (s label : string) :
  s ∈ SERIES → LABELS !! s = Some label →
  normal_results r !! s = Some (default (placeholder label) (r !! s)).
Proof.
  unfold normal_results, setdefault_result.
  intros [-> | [-> | ->]]%SERIES_cases Hl; vm_compute in Hl; injection Hl as <-;
    repeat (case_match; simplify_map_eq); done.
Qed.

(** X7. After a run that writes, the latest file has a snapshot for each
    of the three series. For a series whose counter the run left alone it
    is the snapshot the file had, or, when it had none, the placeholder
    with the label of the series and empty fields. *)
Theorem every_series_has_snapshot (e : env) (fs : files) (m : mem) (r : result unit)
    (s lbl : string) :
  main e fs = (Some m, r) → saves m ≠ 0%nat →
  s ∈ SERIES → LABELS !! s = Some lbl →
  ∃ v, results_of (run e fs) !! s = Some v
       ∧ (counter (run e fs) s = counter fs s →
          v = default (placeholder lbl) (results_of fs !! s)).
Proof.
  intros Hm Hsaves Hs Hlabel.
  destruct (main_outcome e fs) as (m' & r' & Hm' & Ho).
  rewrite Hm in Hm'. injection Hm' as <- <-.
  rewrite (run_disk e fs m r Hm).
  outcome_cases Ho; try done.
  - destruct Hsaves. by fields.
  - rewrite saved_disk. unfold counter.
    rewrite written_counters, written_results, counter_of_insert, lookup_insert.
    case_decide as Hks.
    + subst k. eexists. split; [reflexivity |]. rewrite Hc. intros [=]. lia.
    + rewrite (normal_results_lookup _ s lbl) by done. by eexists.
Qed.

Lemma every_series_has_snapshot_witness :
  main tuesday_found mayor_at_5
    = (Some (memory_of tuesday_found mayor_at_5), result_of tuesday_found mayor_at_5)
  ∧ saves (memory_of tuesday_found mayor_at_5) ≠ 0%nat
  ∧ "zodiaco"%string ∈ SERIES
  ∧ LABELS !! "zodiaco"%string = Some "Sorteo Zodiaco"%string
  ∧ ∃ v, results_of (run tuesday_found mayor_at_5) !! "zodiaco"%string = Some v
         ∧ (counter (run tuesday_found mayor_at_5) "zodiaco"
              = counter mayor_at_5 "zodiaco" →
            v = default (placeholder "Sorteo Zodiaco")
                  (results_of mayor_at_5 !! "zodiaco"%string)).
Proof.
  assert (H1 : main tuesday_found mayor_at_5
               = (Some (memory_of tuesday_found mayor_at_5),
                  result_of tuesday_found mayor_at_5)) by (vm_compute; reflexivity).
  assert (H2 : saves (memory_of tuesday_found mayor_at_5) ≠ 0%nat)
    by (vm_compute; discriminate).
  assert (H3 : "zodiaco"%string ∈ SERIES) by (vm_compute; do 2 right; left).
  assert (H4 : LABELS !! "zodiaco"%string = Some "Sorteo Zodiaco"%string)
    by reflexivity.
  repeat (split; [assumption |]).
  exact (every_series_has_snapshot tuesday_found mayor_at_5 _ _ "zodiaco"
           "Sorteo Zodiaco" H1 H2 H3 H4).
Defined.

(** X8. The history only grows: the items a run leaves in the file are
    those it found, in some order, and at most one new item, which records
    a (series, index) that no item recorded before. *)
Theorem history_append_only (e : env) (fs : files) :
  ∃ added,
    items_of (run e fs) ≡ₚ items_of fs ++ added
    ∧ (added = []
       ∨ ∃ k label c,
           k ∈ SERIES ∧ LABELS !! k = Some label ∧ counter fs k = Ok c
           ∧ (∀ it, it ∈ items_of fs → ¬ is_entry k (c + 1) it)
           ∧ added = [new_item k label (c + 1) (date_iso (now_local e))
                        (location k (c + 1))]).
Proof.
  destruct (run_cases e fs)
    as [-> | (k & label & c & sent & sorted & Hk & Hg & Hc & Hp & Hl & Hs & ->)].
  - exists []. rewrite app_nil_r. split; [reflexivity | by left].
  - rewrite written_items. apply sort_reverse_spec in Hs as [Hperm _].
    unfold items_advanced in Hperm.
    destruct (in_existing k (c + 1) (build_existing (items_of fs))) eqn:Hin.
    + exists []. rewrite app_nil_r. split; [exact Hperm | by left].
    + eexists. split; [exact Hperm |]. right. exists k, label, c.
      repeat split; try done.
      intros it Hit Hent.
      assert (in_existing k (c + 1) (build_existing (items_of fs)) = true)
        by (apply in_existing_build; eauto).
      congruence.
Qed.

(** ** What a run sends *)

Lemma pdf_exists_sent (net : transport) (url : string) (t : Z) :
  (length (pdf_exists net url t).2 ≤ 2)%nat
  ∧ ∀ rq, rq ∈ (pdf_exists net url t).2 → req_url rq = url ∧ req_timeout rq = t.
Proof.
  assert (H1 : ∀ rq, rq ∈ [head_request url t] →
                     req_url rq = url ∧ req_timeout rq = t)
    by (by intros rq ->%list_elem_of_singleton).
  assert (H2 : ∀ rq, rq ∈ [head_request url t; range_request url t] →
                     req_url rq = url ∧ req_timeout rq = t).
  { intros rq. rewrite !elem_of_cons, elem_of_nil. by intros [-> | [-> | []]]. }
  unfold pdf_exists.
  destruct (net (head_request url t)) as [st ct | err].
  - destruct (negb (st =? 200)); simpl; (split; [lia | exact H1]).
  - destruct (net (range_request url t)) as [st ct | [code |]];
      try (simpl; split; [lia | exact H2]).
    destruct (negb ((st =? 200) || (st =? 206))); simpl; (split; [lia | exact H2]).
Qed.

(** X9. A run calls [pdf_exists] at most once and so sends at most two
    requests; each goes, with the timeout of 12 seconds, to the location
    of the index after the counter of the series that is due today. *)
Theorem one_probe_per_run (e : env) (fs : files) :
  ∃ m r, main e fs = (Some m, r)
    ∧ (length (probes m) ≤ 1)%nat ∧ (length (requests m) ≤ 2)%nat
    ∧ (∀ url found, (url, found) ∈ probes m →
         found = (pdf_exists (urlopen e) url DEFAULT_TIMEOUT).1
         ∧ ∃ k c, k ∈ SERIES ∧ should_attempt_today k (now_local e) = true
                  ∧ counter fs k = Ok c ∧ url = location k (c + 1))
    ∧ (∀ rq, rq ∈ requests m →
         req_timeout rq = 12 ∧ ∃ found, (req_url rq, found) ∈ probes m).
Proof.
  destruct (main_outcome e fs) as (m & r & Hm & Ho).
  exists m, r. split; [exact Hm |]. unfold counter.
  assert (Hsent : ∀ k c b sent,
             pdf_exists (urlopen e) (location k (c + 1)) DEFAULT_TIMEOUT = (b, sent) →
             (length sent ≤ 2)%nat
             ∧ ∀ rq, rq ∈ sent →
                 req_timeout rq = 12
                 ∧ ∃ found, (req_url rq, found) ∈ [(location k (c + 1), b)]).
  { intros k c b sent Hp.
    destruct (pdf_exists_sent (urlopen e) (location k (c + 1)) DEFAULT_TIMEOUT)
      as [Hlen Hall].
    rewrite Hp in Hlen, Hall. split; [exact Hlen |].
    intros rq [-> ->]%Hall. split; [reflexivity |].
    exists b. by apply list_elem_of_singleton. }
  assert (Hone : ∀ k c b sent url found,
             k ∈ SERIES → should_attempt_today k (now_local e) = true →
             counter_of (counters fs) k = Ok c →
             pdf_exists (urlopen e) (location k (c + 1)) DEFAULT_TIMEOUT = (b, sent) →
             (url, found) ∈ [(location k (c + 1), b)] →
             found = (pdf_exists (urlopen e) url DEFAULT_TIMEOUT).1
             ∧ ∃ k' c', k' ∈ SERIES ∧ should_attempt_today k' (now_local e) = true
                        ∧ counter_of (counters fs) k' = Ok c'
                        ∧ url = location k' (c' + 1)).
  { intros k c b sent url found Hk Hg Hc Hp [= -> ->]%list_elem_of_singleton.
    rewrite Hp. split; [reflexivity |]. exists k, c. done. }
  outcome_cases Ho; fields.
  - split; [simpl; lia |]. split; [simpl; lia |].
    split; [intros url found Hin | intros rq Hin]; by apply elem_of_nil in Hin.
  - split; [simpl; lia |]. split; [simpl; lia |].
    split; [intros url found Hin | intros rq Hin]; by apply elem_of_nil in Hin.
  - destruct (Hsent k c false sent Hp) as [Hlen Hall].
    split; [simpl; lia |]. split; [exact Hlen |]. split; [| exact Hall].
    intros url found Hin. by eapply Hone.
  - destruct (Hsent k c true sent Hp) as [Hlen Hall].
    split; [simpl; lia |]. split; [exact Hlen |]. split; [| exact Hall].
    intros url found Hin. by eapply Hone.
  - destruct (Hsent k c true sent Hp) as [Hlen Hall].
    split; [simpl; lia |]. split; [exact Hlen |]. split; [| exact Hall].
    intros url found Hin. by eapply Hone.
Qed.

(** X10. A run that writes confirmed one document, and what it stores is
    that document: the snapshot of the series carries the label of the
    series, the index after the old counter in display form, the local
    date of the run and the location the probe confirmed, and the history
    has an item that records the series and that index. *)
Theorem written_snapshot_confirmed (e : env) (fs : files) (m : mem) (r : result unit) :
  main e fs = (Some m, r) → saves m ≠ 0%nat →
  ∃ key lbl idx,
    key ∈ SERIES ∧ LABELS !! key = Some lbl ∧ counter fs key = Ok idx
    ∧ probes m = [(location key (idx + 1), true)]
    ∧ results_of (run e fs) !! key
        = Some {| s_label := lbl;
                  s_draw := "Sorteo " +:+ pretty (idx + 1);
                  s_published_date := date_iso (now_local e);
                  s_pdf_url := location key (idx + 1) |}
    ∧ ∃ it, it ∈ items_of (run e fs) ∧ is_entry key (idx + 1) it.
Proof.
  intros Hm Hsaves.
  destruct (main_outcome e fs) as (m' & r' & Hm' & Ho).
  rewrite Hm in Hm'. injection Hm' as <- <-.
  rewrite (run_disk e fs m r Hm).
  outcome_cases Ho; try done.
  - destruct Hsaves. by fields.
  - exists k, label, c. rewrite saved_disk, written_results, written_items.
    fields. rewrite lookup_insert_eq. repeat split; try done.
    apply sort_reverse_spec in Hsort as [Hperm _].
    unfold items_advanced in Hperm.
    destruct (in_existing k (c + 1) (build_existing (items_of fs))) eqn:Hin.
    + apply in_existing_build in Hin as (it & Hit & Hent).
      exists it. split; [by rewrite Hperm | done].
    + eexists. split.
      * rewrite Hperm. apply elem_of_app. right. by apply list_elem_of_singleton.
      * by apply new_item_entry.
Qed.

Lemma written_snapshot_confirmed_witness :
  main tuesday_found mayor_at_5
    = (Some (memory_of tuesday_found mayor_at_5), result_of tuesday_found mayor_at_5)
  ∧ saves (memory_of tuesday_found mayor_at_5) ≠ 0%nat
  ∧ ∃ key lbl idx,
      key ∈ SERIES ∧ LABELS !! key = Some lbl ∧ counter mayor_at_5 key = Ok idx
      ∧ probes (memory_of tuesday_found mayor_at_5)
          = [(location key (idx + 1), true)]
      ∧ results_of (run tuesday_found mayor_at_5) !! key
          = Some {| s_label := lbl;
                    s_draw := "Sorteo " +:+ pretty (idx + 1);
                    s_published_date := date_iso (now_local tuesday_found);
                    s_pdf_url := location key (idx + 1) |}
      ∧ ∃ it, it ∈ items_of (run tuesday_found mayor_at_5)
              ∧ is_entry key (idx + 1) it.
Proof.
  assert (H1 : main tuesday_found mayor_at_5
               = (Some (memory_of tuesday_found mayor_at_5),
                  result_of tuesday_found mayor_at_5)) by (vm_compute; reflexivity).
  assert (H2 : saves (memory_of tuesday_found mayor_at_5) ≠ 0%nat)
    by (vm_compute; discriminate).
  split; [exact H1 |]. split; [exact H2 |].
  exact (written_snapshot_confirmed tuesday_found mayor_at_5 _ _ H1 H2).
Defined.

(** ** The first probe of a series *)

Lemma due_probe (e : env) (fs : files) (key : string) (idx : Z) :
  key ∈ SERIES → should_attempt_today key (now_local e) = true →
  counter fs key = Ok idx →
  ∃ m r, main e fs = (Some m, r)
    ∧ probes m = [(location key (idx + 1),
                   (pdf_exists (urlopen e) (location key (idx + 1)) DEFAULT_TIMEOUT).1)].
Proof.
  intros Hkey Hdue Hidx.
  destruct (main_outcome e fs) as (m & r & Hm & Ho).
  exists m, r. split; [exact Hm |]. unfold counter in Hidx.
  assert (Hsame : ∀ k1, k1 ∈ SERIES →
             should_attempt_today k1 (now_local e) = true → k1 = key)
    by (intros; by eapply one_series_a_day).
  outcome_cases Ho;
    try (apply Hsame in Hk as ->; [| done]); try congruence.
  - rewrite Hidle in Hdue by done. discriminate.
  - assert (c = idx) as -> by congruence. fields. by rewrite Hp.
  - assert (c = idx) as -> by congruence. fields. by rewrite Hp.
  - assert (c = idx) as -> by congruence. fields. by rewrite Hp.
Qed.

(** X11. A series without a counter starts at 0: when the state file does
    not exist, or exists without the key of the series that is due, the
    run probes the location of index 1. *)
Theorem missing_counter_starts_at_1 (e : env) (fs : files) (key : string) :
  key ∈ SERIES → should_attempt_today key (now_local e) = true →
  STATE_FILE fs = None ∨ (∃ st, STATE_FILE fs = Some st ∧ st !! key = None) →
  counter fs key = Ok 0
  ∧ ∃ m r found, main e fs = (Some m, r) ∧ probes m = [(location key 1, found)].
Proof.
  intros Hkey Hdue Hmissing.
  assert (Hzero : counter fs key = Ok 0).
  { unfold counter, counter_of, counters.
    destruct Hmissing as [-> | (st & -> & Hst)]; simpl.
    - by apply SERIES_cases in Hkey as [-> | [-> | ->]].
    - by rewrite Hst. }
  split; [exact Hzero |].
  destruct (due_probe e fs key 0 Hkey Hdue Hzero) as (m & r & Hm & Hprobes).
  exists m, r. eexists. split; [exact Hm | exact Hprobes].
Qed.

Lemma missing_counter_starts_at_1_witness :
  "mayor"%string ∈ SERIES
  ∧ should_attempt_today "mayor" (now_local tuesday_found) = true
  ∧ (STATE_FILE state_without_mayor = None
     ∨ ∃ st, STATE_FILE state_without_mayor = Some st ∧ st !! "mayor"%string = None)
  ∧ counter state_without_mayor "mayor" = Ok 0
  ∧ ∃ m r found, main tuesday_found state_without_mayor = (Some m, r)
                 ∧ probes m = [(location "mayor" 1, found)].
Proof.
  assert (H1 : "mayor"%string ∈ SERIES) by (vm_compute; left).
  assert (H2 : should_attempt_today "mayor" (now_local tuesday_found) = true)
    by reflexivity.
  assert (H3 : STATE_FILE state_without_mayor = None
               ∨ ∃ st, STATE_FILE state_without_mayor = Some st
                       ∧ st !! "mayor"%string = None).
  { right. eexists. split; reflexivity. }
  repeat (split; [assumption |]).
  exact (missing_counter_starts_at_1 tuesday_found state_without_mayor "mayor"
           H1 H2 H3).
Defined.

(** ** Two runs on one day *)

Lemma sortable_advanced (e : env) (fs : files) (k label : string) (c : Z) :
  Forall (λ it, ∃ key, sort_key it = Ok key) (items_of fs) →
  ∃ keys, map_result sort_key (items_advanced e fs k label c) = Ok keys.
Proof.
  intros Hall.
  destruct (map_result sort_key (items_advanced e fs k label c)) as [keys | x] eqn:H;
    [by eexists | exfalso].
  destruct (proj1 (items_advanced_raises e fs k label c)) as (it & v & x' & Hin & Hv & Hx);
    [by eexists |].
  rewrite Forall_forall in Hall. destruct (Hall it Hin) as [key Hkey].
  assert (sort_key it = Raise x') by (apply sort_key_raises; eauto).
  congruence.
Qed.

(** X12. Nothing keeps a series from advancing twice on its day: when the
    server has the next two documents and every item of the history has a
    sort key, two runs in the same environment move the counter by two. *)
Theorem second_run_advances_again (e : env) (fs : files) (key : string) (idx : Z) :
  key ∈ SERIES → should_attempt_today key (now_local e) = true →
  counter fs key = Ok idx →
  (pdf_exists (urlopen e) (location key (idx + 1)) DEFAULT_TIMEOUT).1 = true →
  (pdf_exists (urlopen e) (location key (idx + 2)) DEFAULT_TIMEOUT).1 = true →
  Forall (λ it, ∃ k, sort_key it = Ok k) (items_of fs) →
  counter (run e fs) key = Ok (idx + 1)
  ∧ counter (run e (run e fs)) key = Ok (idx + 2).
Proof.
  intros Hkey Hdue Hidx Hfound1 Hfound2 Hall.
  assert (Hstep : ∀ fs' n,
             counter fs' key = Ok n →
             (pdf_exists (urlopen e) (location key (n + 1)) DEFAULT_TIMEOUT).1 = true →
             Forall (λ it, ∃ k, sort_key it = Ok k) (items_of fs') →
             counter (run e fs') key = Ok (n + 1)
             ∧ Forall (λ it, ∃ k, sort_key it = Ok k) (items_of (run e fs'))).
  { intros fs' n Hn Hfound Hsortable.
    destruct (confirmed_history e fs' key n Hkey Hdue Hn Hfound)
      as (m & r & lbl & items & Hm & Hl & Hitems & Hperm & Hrun & Hr).
    destruct (sortable_advanced e fs' key lbl n Hsortable) as [keys Hkeys].
    assert (Hok : r = Ok tt) by (apply Hr; by eexists).
    rewrite (Hrun Hok). unfold counter.
    rewrite written_counters, written_items, counter_of_insert, decide_True by done.
    split; [reflexivity |].
    rewrite Hperm. apply map_result_Forall2 in Hkeys.
    clear -Hkeys. induction Hkeys; constructor; eauto. }
  destruct (Hstep fs idx Hidx Hfound1 Hall) as [H1 Hall1].
  split; [exact H1 |].
  replace (idx + 2) with (idx + 1 + 1) in * by lia.
  by apply Hstep.
Qed.

Lemma second_run_advances_again_witness :
  "mayor"%string ∈ SERIES
  ∧ should_attempt_today "mayor" (now_local tuesday_found) = true
  ∧ counter mayor_at_5 "mayor" = Ok 5
  ∧ (pdf_exists (urlopen tuesday_found) (location "mayor" (5 + 1)) DEFAULT_TIMEOUT).1
      = true
  ∧ (pdf_exists (urlopen tuesday_found) (location "mayor" (5 + 2)) DEFAULT_TIMEOUT).1
      = true
  ∧ Forall (λ it, ∃ k, sort_key it = Ok k) (items_of mayor_at_5)
  ∧ counter (run tuesday_found mayor_at_5) "mayor" = Ok (5 + 1)
  ∧ counter (run tuesday_found (run tuesday_found mayor_at_5)) "mayor" = Ok (5 + 2).
Proof.
  assert (H1 : "mayor"%string ∈ SERIES) by (vm_compute; left).
  assert (H2 : should_attempt_today "mayor" (now_local tuesday_found) = true)
    by reflexivity.
  assert (H3 : counter mayor_at_5 "mayor" = Ok 5) by reflexivity.
  assert (H4 : (pdf_exists (urlopen tuesday_found) (location "mayor" (5 + 1))
                  DEFAULT_TIMEOUT).1 = true) by reflexivity.
  assert (H5 : (pdf_exists (urlopen tuesday_found) (location "mayor" (5 + 2))
                  DEFAULT_TIMEOUT).1 = true) by reflexivity.
  assert (H6 : Forall (λ it, ∃ k, sort_key it = Ok k) (items_of mayor_at_5))
    by (vm_compute; constructor).
  repeat (split; [assumption |]).
  exact (second_run_advances_again tuesday_found mayor_at_5 "mayor" 5
           H1 H2 H3 H4 H5 H6).
Defined.

(** ** Days without a series *)

(** X13. On a weekday that the schedule gives to no series (any value
    other than 1, 4 and 6) a run sends nothing, returns and leaves the
    files as they were. *)
Theorem idle_day (e : env) (fs : files) :
  weekday (now_local e) ≠ 1 → weekday (now_local e) ≠ 4 →
  weekday (now_local e) ≠ 6 →
  main e fs = (Some (start fs), Ok tt)
  ∧ probes (start fs) = [] ∧ requests (start fs) = [] ∧ run e fs = fs.
Proof.
  intros H1 H4 H6.
  assert (Hclosed : ∀ k, k ∈ SERIES → should_attempt_today k (now_local e) = false).
  { intros k [-> | [-> | ->]]%SERIES_cases; unfold should_attempt_today;
      apply bool_decide_eq_false;
      [change (default [] (SCHEDULE_WEEKDAYS !! "mayor"%string)) with [1]
      |change (default [] (SCHEDULE_WEEKDAYS !! "superior"%string)) with [4]
      |change (default [] (SCHEDULE_WEEKDAYS !! "zodiaco"%string)) with [6]];
      by rewrite list_elem_of_singleton. }
  destruct (main_outcome e fs) as (m & r & Hm & Ho).
  rewrite (run_disk e fs m r Hm).
  outcome_cases Ho; try (rewrite Hclosed in Hgate by done; discriminate Hgate).
  done.
Qed.

Lemma idle_day_witness :
  weekday (now_local wednesday_found) ≠ 1
  ∧ weekday (now_local wednesday_found) ≠ 4
  ∧ weekday (now_local wednesday_found) ≠ 6
  ∧ main wednesday_found mayor_at_5 = (Some (start mayor_at_5), Ok tt)
  ∧ probes (start mayor_at_5) = [] ∧ requests (start mayor_at_5) = []
  ∧ run wednesday_found mayor_at_5 = mayor_at_5.
Proof.
  assert (H1 : weekday (now_local wednesday_found) ≠ 1) by (simpl; lia).
  assert (H4 : weekday (now_local wednesday_found) ≠ 4) by (simpl; lia).
  assert (H6 : weekday (now_local wednesday_found) ≠ 6) by (simpl; lia).
  repeat (split; [assumption |]).
  exact (idle_day wednesday_found mayor_at_5 H1 H4 H6).
Defined.

(** ** A history that is already in order *)

Lemma string_ltb_irrefl (s : string) : String.ltb s s = false.
Proof. unfold String.ltb. by rewrite string_compare_refl. Qed.

Lemma key_ge_not_lt (a b : string * Z) : key_ge a b → key_lt a b = false.
Proof.
  unfold key_ge, key_lt. intros [Hlt | [Heq Hle]]; case_bool_decide as H.
  - rewrite H, string_ltb_irrefl in Hlt. discriminate.
  - destruct (String.ltb a.1 b.1) eqn:Hab; [| reflexivity].
    pose proof (string_ltb_trans _ _ _ Hab Hlt) as Haa.
    rewrite string_ltb_irrefl in Haa. discriminate.
  - by apply Z.ltb_ge.
  - done.
Qed.

Section already_sorted.
Context {A : Type}.
Implicit Types (p : (string * Z) * A) (l : list ((string * Z) * A)).
Let above (p q : (string * Z) * A) : Prop := key_ge p.1 q.1.

Lemma insert_desc_head p l : Forall (above p) l → insert_desc p l = p :: l.
Proof.
  destruct 1 as [| q l Hq _]; [reflexivity |].
  simpl. by rewrite (key_ge_not_lt _ _ Hq).
Qed.

Lemma sorted_pairs_fixed l : StronglySorted above l → foldr insert_desc [] l = l.
Proof.
  induction 1 as [| p l Hl IH Hp]; [reflexivity |].
  simpl. rewrite IH. by apply insert_desc_head.
Qed.

Lemma sorted_pairs_insert p l :
  StronglySorted above l →
  ∃ l1 l2, l = l1 ++ l2 ∧ foldr insert_desc [p] l = l1 ++ p :: l2.
Proof.
  induction 1 as [| q l Hl (l1 & l2 & -> & IH) Hq].
  - by exists [], [].
  - simpl. rewrite IH. destruct l1 as [| q1 l1]; simpl in *.
    + destruct (key_lt q.1 p.1).
      * exists [], (q :: l2). by rewrite (insert_desc_head q l2 Hq).
      * by exists [q], l2.
    + apply Forall_cons in Hq as [Hq1 Hq].
      rewrite (key_ge_not_lt _ _ Hq1). by exists (q :: q1 :: l1), l2.
Qed.

Lemma sorted_by_keys l :
  StronglySorted key_ge (l.*1) → StronglySorted above l.
Proof.
  induction l as [| p l IH]; [constructor |].
  rewrite fmap_cons. intros [Hs Hall]%StronglySorted_inv.
  constructor; [by apply IH |].
  rewrite Forall_forall in Hall. apply Forall_forall. intros q Hq.
  apply Hall. apply list_elem_of_fmap. by exists q.
Qed.
End already_sorted.

(** X14. When the history file is in descending order, a run leaves the
    items it found in their places: the file it writes is the old list
    with at most one item put in somewhere. *)
Theorem sorted_history_only_inserts (e : env) (fs : files)
    (keys : list (string * Z)) :
  map_result sort_key (items_of fs) = Ok keys → StronglySorted key_ge keys →
  ∃ before added after,
    items_of fs = before ++ after
    ∧ items_of (run e fs) = before ++ added ++ after
    ∧ (length added ≤ 1)%nat.
Proof.
  intros Hkeys Hsorted.
  destruct (run_cases e fs)
    as [-> | (k & label & c & sent & sorted & Hk & Hg & Hc & Hp & Hl & Hs & ->)].
  - exists (items_of fs), [], []. rewrite !app_nil_r. repeat split. simpl. lia.
  - rewrite written_items.
    apply map_result_Forall2 in Hkeys.
    assert (Hlen : length (items_of fs) = length keys) by (by eapply Forall2_length).
    assert (Hpairs : StronglySorted (λ p q : (string * Z) * hist_item, key_ge p.1 q.1)
                       (zip keys (items_of fs))).
    { apply sorted_by_keys. rewrite fst_zip by lia. exact Hsorted. }
    unfold sort_reverse, mbind, result_bind, mret, result_ret, items_advanced in Hs.
    destruct (in_existing k (c + 1) (build_existing (items_of fs))).
    + apply map_result_Forall2 in Hkeys. rewrite Hkeys in Hs. injection Hs as <-.
      rewrite sorted_pairs_fixed by done. rewrite snd_zip by lia.
      exists (items_of fs), [], []. rewrite !app_nil_r. repeat split. simpl. lia.
    + destruct (map_result sort_key (items_of fs ++ _)) as [ks |] eqn:Hks;
        [| discriminate Hs].
      injection Hs as <-.
      apply map_result_Forall2, Forall2_app_inv_l in Hks
        as (ks1 & ks2 & Hks1 & Hks2 & ->).
      assert (ks1 = keys) as ->.
      { clear -Hkeys Hks1. revert ks1 Hks1.
        induction Hkeys as [| it key l ks Hit _ IH]; intros ks1 Hks1.
        - by apply Forall2_nil_inv_l in Hks1.
        - apply Forall2_cons_inv_l in Hks1 as (key' & ks' & Hit' & Hks' & ->).
          f_equal; [congruence | by apply IH]. }
      apply Forall2_cons_inv_l in Hks2 as (knew & ks' & _ & ->%Forall2_nil_inv_l & ->).
      rewrite zip_with_app by lia. simpl. rewrite foldr_app. simpl.
      destruct (sorted_pairs_insert (knew, new_item k label (c + 1)
                                             (date_iso (now_local e))
                                             (location k (c + 1)))
                  _ Hpairs) as (l1 & l2 & Hzip & ->).
      exists (l1.*2), [new_item k label (c + 1) (date_iso (now_local e))
                         (location k (c + 1))], (l2.*2).
      split; [| split; [| simpl; lia]].
      * rewrite <- fmap_app, <- Hzip. by rewrite snd_zip by lia.
      * by rewrite fmap_app.
Qed.

Lemma sorted_history_only_inserts_witness :
  map_result sort_key (items_of mayor_at_5_with_history)
    = Ok [("2026-10-27"%string, 5); ("2026-10-20"%string, 4)]
  ∧ StronglySorted key_ge [("2026-10-27"%string, 5); ("2026-10-20"%string, 4)]
  ∧ ∃ before added after,
      items_of mayor_at_5_with_history = before ++ after
      ∧ items_of (run tuesday_found mayor_at_5_with_history)
          = before ++ added ++ after
      ∧ (length added ≤ 1)%nat.
Proof.
  assert (H1 : map_result sort_key (items_of mayor_at_5_with_history)
               = Ok [("2026-10-27"%string, 5); ("2026-10-20"%string, 4)])
    by reflexivity.
  assert (H2 : StronglySorted key_ge
                 [("2026-10-27"%string, 5); ("2026-10-20"%string, 4)]).
  { constructor; [constructor; [constructor | constructor] |].
    constructor; [| constructor]. left. reflexivity. }
  split; [exact H1 |]. split; [exact H2 |].
  exact (sorted_history_only_inserts tuesday_found mayor_at_5_with_history _ H1 H2).
Defined.

(** ** Keys of the state and of the results *)

Lemma setdefault_result_new (k : string) (v' : snapshot) (r : gmap string snapshot)
    (s : string) :
  is_Some (setdefault_result k v' r !! s) → is_Some (r !! s) ∨ s = k.
Proof.
  unfold setdefault_result. destruct (r !! k); [by left |].
  rewrite lookup_insert. case_decide; [by right | by left].
Qed.

(** X15. A run never drops a key: a counter or a snapshot that the files
    had is still there afterwards, and the only keys a run can add are
    those of the three series. *)
Theorem keys_kept (e : env) (fs : files) (s : string) :
  (is_Some (counters fs !! s) → is_Some (counters (run e fs) !! s))
  ∧ (is_Some (results_of fs !! s) → is_Some (results_of (run e fs) !! s))
  ∧ (is_Some (counters (run e fs) !! s) → is_Some (counters fs !! s) ∨ s ∈ SERIES)
  ∧ (is_Some (results_of (run e fs) !! s)
     → is_Some (results_of fs !! s) ∨ s ∈ SERIES).
Proof.
  destruct (run_cases e fs)
    as [-> | (k & label & c & sent & sorted & Hk & Hg & Hc & Hp & Hl & Hs & ->)].
  - repeat split; by left || done.
  - rewrite written_counters, written_results, !lookup_insert.
    repeat split.
    + case_decide; [by eexists | done].
    + case_decide; [by eexists |]. intros [v Hv].
      exists v. by apply normal_results_keep.
    + case_decide; [subst; by right | by left].
    + case_decide; [subst; by right |]. unfold normal_results.
      intros [[[Hold | ->]%setdefault_result_new | ->]%setdefault_result_new | ->]
               %setdefault_result_new;
        [by left | right; vm_compute; left
        | right; vm_compute; right; left | right; vm_compute; do 2 right; left].
Qed.
